(** * coin_api_mcp: the tool dispatcher of [src/coin_api_mcp/server.py]

    A shallow embedding of the MCP server's tool listing, its three upstream
    client functions and its dispatcher [handle_call_tool], together with the
    parts of the Python runtime the dispatcher leans on ([str()], f-strings,
    [dict], [urllib.parse.urlencode], [json.dumps]).

    Python text strings are sequences of Unicode code points; byte strings are
    sequences of numbers below 256.  Both are lists of [N] here. *)

From Stdlib Require Import List NArith ZArith Lia Bool String Ascii DecimalString.
Import ListNotations.
Local Open Scope N_scope.
Local Open Scope list_scope.

(** ** Python text *)

Definition str := list N.
Definition bytes := list N.

(** A source literal, as the code points of its characters (all literals of
    the program are ASCII). *)
Definition lit (s : string) : str :=
  map N_of_ascii (list_ascii_of_string s).

Fixpoint str_eqb (a b : str) : bool :=
  match a, b with
  | [], [] => true
  | x :: a', y :: b' => (x =? y) && str_eqb a' b'
  | _, _ => false
  end.

(** [x in s] for a one-character [x]. *)
Definition str_contains (c : N) (s : str) : bool := existsb (N.eqb c) s.

(** [key in condi_keys] for a list of strings. *)
Definition str_in (k : str) (ks : list str) : bool := existsb (str_eqb k) ks.

(** [sep.join(parts)]. *)
Fixpoint join (sep : str) (parts : list str) : str :=
  match parts with
  | [] => []
  | [p] => p
  | p :: rest => p ++ sep ++ join sep rest
  end.

(** [s.replace(old, new)] for one-character [old] and [new]. *)
Definition replace_char (old new : N) (s : str) : str :=
  map (fun c => if c =? old then new else c) s.

(** A code point that is neither a surrogate nor beyond U+10FFFF: the ones
    UTF-8 can carry. *)
Definition scalar (c : N) : bool :=
  (c <? 0xD800) || ((0xE000 <=? c) && (c <? 0x110000)).

Definition scalar_str (s : str) : Prop := Forall (fun c => scalar c = true) s.

(** Hexadecimal digits, as [format] prints them. *)
Definition hex_digit (upper : bool) (d : N) : N :=
  if d <? 10 then 48 + d else (if upper then 55 else 87) + d.

(** [width] hexadecimal digits of [n], most significant first. *)
Fixpoint hex_fixed (upper : bool) (width : nat) (n : N) : str :=
  match width with
  | O => []
  | S w => hex_fixed upper w (n / 16) ++ [hex_digit upper (n mod 16)]
  end.

(** ** Python values

    The values a JSON document decodes to.  A float is kept as its [repr]
    (the shortest decimal text that reads back to it), which is all the
    program observes of it. *)

#[warnings="-register-all"]
Inductive value : Type :=
| VNone
| VBool (b : bool)
| VInt (n : Z)
| VFloat (repr : str)
| VStr (s : str)
| VList (xs : list value)
| VDict (kvs : list (str * value)).

(** A [dict] with string keys keeps its entries in insertion order. *)
Definition dict := list (str * value).

Fixpoint dict_get (d : dict) (k : str) : option value :=
  match d with
  | [] => None
  | (k', v) :: d' => if str_eqb k k' then Some v else dict_get d' k
  end.

(** [d[k] = v]: overwrite in place, or append a new entry. *)
Fixpoint dict_set (d : dict) (k : str) (v : value) : dict :=
  match d with
  | [] => [(k, v)]
  | (k', v') :: d' =>
      if str_eqb k k' then (k', v) :: d' else (k', v') :: dict_set d' k v
  end.

Definition dict_keys (d : dict) : list str := map fst d.

(** Truth value of an object, as [not x] tests it. *)
Definition truthy (v : value) : bool :=
  match v with
  | VNone => false
  | VBool b => b
  | VInt n => negb (n =? 0)%Z
  | VFloat r => negb (str_eqb r (lit "0.0") || str_eqb r (lit "-0.0"))
  | VStr s => match s with [] => false | _ => true end
  | VList xs => match xs with [] => false | _ => true end
  | VDict kvs => match kvs with [] => false | _ => true end
  end.

(** The Unicode character database is not part of the program: whether a
    code point above U+007F is printable is a table of the interpreter. *)
Class UnicodeDB := { isprintable : N -> bool }.

Section Repr.
Context `{UnicodeDB}.

(** One character of [repr] of a string quoted with [q]. *)
Definition repr_char (q : N) (c : N) : str :=
  if (c =? q) || (c =? 92) then [92; c]
  else if c =? 9 then lit "\t"
  else if c =? 10 then lit "\n"
  else if c =? 13 then lit "\r"
  else if (c <? 32) || (c =? 127) then lit "\x" ++ hex_fixed false 2 c
  else if c <? 127 then [c]
  else if isprintable c then [c]
  else if c <? 256 then lit "\x" ++ hex_fixed false 2 c
  else if c <? 65536 then lit "\u" ++ hex_fixed false 4 c
  else lit "\U" ++ hex_fixed false 8 c.

(** [repr(s)]: single quotes, unless the text has a single quote and no
    double quote. *)
Definition repr_str (s : str) : str :=
  let q := if str_contains 39 s && negb (str_contains 34 s) then 34 else 39 in
  [q] ++ List.concat (map (repr_char q) s) ++ [q].

Definition int_str (n : Z) : str := lit (NilZero.string_of_int (Z.to_int n)).

Fixpoint py_repr (v : value) : str :=
  match v with
  | VNone => lit "None"
  | VBool true => lit "True"
  | VBool false => lit "False"
  | VInt n => int_str n
  | VFloat r => r
  | VStr s => repr_str s
  | VList xs => lit "[" ++ join (lit ", ") (map py_repr xs) ++ lit "]"
  | VDict kvs =>
      lit "{"
      ++ join (lit ", ")
           (map (fun kv => repr_str (fst kv) ++ lit ": " ++ py_repr (snd kv)) kvs)
      ++ lit "}"
  end.

(** [str(v)], which is also what an f-string field [{v}] formats to. *)
Definition py_str (v : value) : str :=
  match v with
  | VStr s => s
  | _ => py_repr v
  end.
End Repr.

(** ** Exceptions and results *)

Inductive exn : Type :=
| ValueError (msg : str)
| KeyError (key : str)
| UnicodeEncodeError
| UnicodeDecodeError
| ConnectError
| TimeoutException
| HTTPStatusError (status : N)
| JSONDecodeError.

Inductive result (A : Type) : Type :=
| Return (a : A)
| Raise (e : exn).
Arguments Return {A} a.
Arguments Raise {A} e.

Definition rbind {A B} (r : result A) (f : A -> result B) : result B :=
  match r with
  | Return a => f a
  | Raise e => Raise e
  end.

Notation "x <- a ;; b" := (rbind a (fun x => b))
  (at level 61, a at next level, right associativity).

(** ** Text codecs: [str.encode('utf-8', 'strict')] and its inverse *)

Definition utf8_encode_char (c : N) : result bytes :=
  if c <? 0x80 then Return [c]
  else if c <? 0x800 then Return [0xC0 + c / 64; 0x80 + c mod 64]
  else if c <? 0x10000 then
    if (0xD800 <=? c) && (c <? 0xE000) then Raise UnicodeEncodeError
    else Return [0xE0 + c / 4096; 0x80 + (c / 64) mod 64; 0x80 + c mod 64]
  else if c <? 0x110000 then
    Return [0xF0 + c / 262144; 0x80 + (c / 4096) mod 64;
            0x80 + (c / 64) mod 64; 0x80 + c mod 64]
  else Raise UnicodeEncodeError.

Fixpoint utf8_encode (s : str) : result bytes :=
  match s with
  | [] => Return []
  | c :: s' =>
      b <- utf8_encode_char c ;;
      bs <- utf8_encode s' ;;
      Return (b ++ bs)
  end.

(** A continuation byte, [10xxxxxx]. *)
Definition utf8_cont (b : N) : bool := (0x80 <=? b) && (b <? 0xC0).

(** [bytes.decode('utf-8', 'strict')]: shortest forms only, no surrogates,
    nothing beyond U+10FFFF. *)
Fixpoint utf8_decode (bs : bytes) : result str :=
  match bs with
  | [] => Return []
  | b0 :: t0 =>
      if b0 <? 0x80 then
        s <- utf8_decode t0 ;; Return (b0 :: s)
      else if b0 <? 0xC2 then Raise UnicodeDecodeError
      else if b0 <? 0xE0 then
        match t0 with
        | b1 :: t1 =>
            if utf8_cont b1 then
              s <- utf8_decode t1 ;;
              Return ((b0 - 0xC0) * 64 + (b1 - 0x80) :: s)
            else Raise UnicodeDecodeError
        | _ => Raise UnicodeDecodeError
        end
      else if b0 <? 0xF0 then
        match t0 with
        | b1 :: b2 :: t2 =>
            let c := (b0 - 0xE0) * 4096 + (b1 - 0x80) * 64 + (b2 - 0x80) in
            if utf8_cont b1 && utf8_cont b2 && (0x800 <=? c) && scalar c then
              s <- utf8_decode t2 ;; Return (c :: s)
            else Raise UnicodeDecodeError
        | _ => Raise UnicodeDecodeError
        end
      else if b0 <? 0xF5 then
        match t0 with
        | b1 :: b2 :: b3 :: t3 =>
            let c := (b0 - 0xF0) * 262144 + (b1 - 0x80) * 4096
                     + (b2 - 0x80) * 64 + (b3 - 0x80) in
            if utf8_cont b1 && utf8_cont b2 && utf8_cont b3
               && (0x10000 <=? c) && (c <? 0x110000) then
              s <- utf8_decode t3 ;; Return (c :: s)
            else Raise UnicodeDecodeError
        | _ => Raise UnicodeDecodeError
        end
      else Raise UnicodeDecodeError
  end.

(** ** [urllib.parse] *)

(** [_ALWAYS_SAFE]: the unreserved characters, never quoted. *)
Definition ALWAYS_SAFE : str :=
  lit "ABCDEFGHIJKLMNOPQRSTUVWXYZabcdefghijklmnopqrstuvwxyz0123456789_.-~".

(** One byte through the quoter: itself when safe, else [%XX]. *)
Definition quote_byte (safe : str) (b : N) : str :=
  if str_contains b (ALWAYS_SAFE ++ safe) then [b]
  else 37 :: hex_fixed true 2 b.

Definition quote_from_bytes (bs : bytes) (safe : str) : str :=
  List.concat (map (quote_byte safe) bs).

(** [quote(string, safe)] on a text string: the empty string comes back as
    it is, anything else is encoded to UTF-8 (strictly) and quoted. *)
Definition quote (s : str) (safe : str) : result str :=
  match s with
  | [] => Return []
  | _ => bs <- utf8_encode s ;; Return (quote_from_bytes bs safe)
  end.

(** [quote_plus(string, safe)]: like [quote], with spaces turned to [+]. *)
Definition quote_plus (s : str) (safe : str) : result str :=
  if negb (str_contains 32 s) then quote s safe
  else q <- quote s (safe ++ lit " ") ;; Return (replace_char 32 43 q).

Section Urlencode.
Context `{UnicodeDB}.

(** The loop of [urlencode(query)] over [query.items()], with the
    defaults [doseq=False], [safe=''], [quote_via=quote_plus]. *)
Fixpoint urlencode_items (query : dict) : result (list str) :=
  match query with
  | [] => Return []
  | (k, v) :: rest =>
      k' <- quote_plus (py_str (VStr k)) [] ;;
      v' <- quote_plus (py_str v) [] ;;
      l <- urlencode_items rest ;;
      Return ((k' ++ lit "=" ++ v') :: l)
  end.

Definition urlencode (query : dict) : result str :=
  l <- urlencode_items query ;; Return (join (lit "&") l).
End Urlencode.

(** The decoding side, [unquote_plus] with strict errors; the program never
    calls it, it is what a receiver of the URL applies to a query value. *)

Definition hex_value (c : N) : option N :=
  if (48 <=? c) && (c <=? 57) then Some (c - 48)
  else if (65 <=? c) && (c <=? 70) then Some (c - 55)
  else if (97 <=? c) && (c <=? 102) then Some (c - 87)
  else None.

Fixpoint unquote_to_bytes (s : str) : result bytes :=
  match s with
  | [] => Return []
  | c :: t =>
      let plain :=
        b <- utf8_encode_char c ;; bs <- unquote_to_bytes t ;; Return (b ++ bs) in
      if c =? 37 then
        match t with
        | h :: l :: t' =>
            match hex_value h, hex_value l with
            | Some x, Some y => bs <- unquote_to_bytes t' ;; Return (16 * x + y :: bs)
            | _, _ => plain
            end
        | _ => plain
        end
      else plain
  end.

Definition unquote (s : str) : result str :=
  bs <- unquote_to_bytes s ;; utf8_decode bs.

Definition unquote_plus (s : str) : result str :=
  unquote (replace_char 43 32 s).

(** ** [json.dumps], with its defaults: [ensure_ascii=True], separators
    [", "] and [": "], [allow_nan=True] *)

(** One character of a JSON string, as [py_encode_basestring_ascii] writes
    it: printable ASCII stays, the rest is escaped; a code point beyond the
    basic plane becomes a surrogate pair. *)
Definition json_escape_char (c : N) : str :=
  if c =? 34 then [92; 34]
  else if c =? 92 then [92; 92]
  else if c =? 10 then lit "\n"
  else if c =? 13 then lit "\r"
  else if c =? 9 then lit "\t"
  else if c =? 8 then lit "\b"
  else if c =? 12 then lit "\f"
  else if (32 <=? c) && (c <=? 126) then [c]
  else if c <? 0x10000 then lit "\u" ++ hex_fixed false 4 c
  else
    let n := c - 0x10000 in
    lit "\u" ++ hex_fixed false 4 (0xD800 + (n / 1024) mod 1024)
    ++ lit "\u" ++ hex_fixed false 4 (0xDC00 + n mod 1024).

Definition json_string (s : str) : str :=
  [34] ++ List.concat (map json_escape_char s) ++ [34].

Definition json_float (r : str) : str :=
  if str_eqb r (lit "nan") then lit "NaN"
  else if str_eqb r (lit "inf") then lit "Infinity"
  else if str_eqb r (lit "-inf") then lit "-Infinity"
  else r.

Fixpoint json_dumps (v : value) : str :=
  match v with
  | VNone => lit "null"
  | VBool true => lit "true"
  | VBool false => lit "false"
  | VInt n => int_str n
  | VFloat r => json_float r
  | VStr s => json_string s
  | VList xs => lit "[" ++ join (lit ", ") (map json_dumps xs) ++ lit "]"
  | VDict kvs =>
      lit "{"
      ++ join (lit ", ")
           (map (fun kv => json_string (fst kv) ++ lit ": " ++ json_dumps (snd kv)) kvs)
      ++ lit "}"
  end.

(** ** The network, as [httpx] shows it

    A GET either raises (connection failure, timeout, ...) or yields a
    response with a status code; [response.json()] either yields the decoded
    body or raises. *)

Record request : Type := {
  req_url : str;
  req_headers : dict;
  req_timeout : value
}.

Record response : Type := {
  status_code : N;
  body_json : result value
}.

(** An [httpx.AsyncClient]: what a GET through it comes back with. *)
Definition AsyncClient := request -> result response.

(** The module's globals and the network behind every client. *)
Record world : Type := {
  API_KEY : value;
  DEFI_API_KEY : value;
  network : AsyncClient
}.

(** A coroutine of the server: it reads the world, may raise, and adds the
    GETs it issues, in order, to the log. *)
Definition M (A : Type) : Type := world -> list request -> result A * list request.

Definition ret {A} (a : A) : M A := fun _ log => (Return a, log).

Definition raise {A} (e : exn) : M A := fun _ log => (Raise e, log).

Definition bind {A B} (m : M A) (f : A -> M B) : M B :=
  fun w log =>
    match m w log with
    | (Return a, log') => f a w log'
    | (Raise e, log') => (Raise e, log')
    end.

Definition lift {A} (r : result A) : M A := fun _ log => (r, log).

Definition globals {A} (f : world -> A) : M A := fun w log => (Return (f w), log).

(** [try: body / except Exception: handler]; every exception of the model
    is a subclass of [Exception]. *)
Definition try_except {A} (body : M A) (handler : exn -> M A) : M A :=
  fun w log =>
    match body w log with
    | (Return a, log') => (Return a, log')
    | (Raise e, log') => handler e w log'
    end.

Notation "x <~ a ;; b" := (bind a (fun x => b))
  (at level 61, a at next level, right associativity).

(** [httpx.AsyncClient()] *)
Definition new_AsyncClient : M AsyncClient :=
  fun w log => (Return (network w), log).

(** [await client.get(url, headers=headers, timeout=timeout)] *)
Definition client_get (client : AsyncClient) (url : str) (headers : dict)
    (timeout : value) : M response :=
  fun _ log =>
    let req := {| req_url := url; req_headers := headers; req_timeout := timeout |} in
    (client req, log ++ [req]).

(** [response.raise_for_status()]: anything but 2xx raises. *)
Definition raise_for_status (r : response) : result unit :=
  if (200 <=? status_code r) && (status_code r <=? 299) then Return tt
  else Raise (HTTPStatusError (status_code r)).

(** ** The server *)

Definition API_BASE : str := lit "pro-api.coinmarketcap.com".

(** A listed tool: its name, the property names of its input schema and the
    schema's [required] list (descriptions and property types are data that
    no code path reads). *)
Record Tool : Type := {
  name : str;
  properties : list str;
  required : list str
}.

Definition handle_list_tools : list Tool :=
  [ {| name := lit "listing-coins";
       properties := map lit
         [ "start"; "limit"; "price_min"; "price_max"; "market_cap_min";
           "market_cap_max"; "volume_24h_min"; "volume_24h_max";
           "circulating_supply_min"; "circulating_supply_max";
           "percent_change_24h_min"; "percent_change_24h_max"; "convert";
           "convert_id"; "sort"; "sort_dir"; "cryptocurrency_type"; "tag";
           "aux" ]%string;
       required := [] |};
    {| name := lit "get-coin-info";
       properties := map lit
         [ "id"; "slug"; "symbol"; "address"; "skip_invalid"; "aux" ]%string;
       required := [] |};
    {| name := lit "get-coin-quotes";
       properties := map lit
         [ "id"; "slug"; "symbol"; "convert"; "convert_id"; "aux";
           "skip_invalid" ]%string;
       required := [] |};
    {| name := lit "get-protocols";
       properties := map lit
         [ "id"; "slug"; "symbol"; "convert"; "convert_id"; "aux";
           "skip_invalid" ]%string;
       required := [] |};
    {| name := lit "listing-protocols";
       properties := map lit
         [ "id"; "name"; "symbol"; "url"; "description"; "chain"; "logo";
           "audits"; "audit_note"; "category"; "chains"; "twitter";
           "forkedFrom"; "oracles"; "listedAt"; "methodology"; "slug"; "tvl";
           "chainTvls"; "change_1h"; "change_1d"; "change_7d";
           "tokenBreakdowns"; "mcap" ]%string;
       required := [] |};
    {| name := lit "get-protocol-tvl";
       properties := [ lit "protocol" ];
       required := [ lit "protocol" ] |};
    {| name := lit "get-apr";
       properties := [ lit "liquidStakingId" ];
       required := [ lit "liquidStakingId" ] |} ].

(** The three client functions: GET with the family's headers and a fixed
    timeout, check the status, decode the body; any exception becomes
    [None]. *)

Definition make_coinmarketcap_request (client : AsyncClient) (url : str) : M value :=
  key <~ globals API_KEY ;;
  let headers :=
    [ (lit "Accepts", VStr (lit "application/json"));
      (lit "X-CMC_PRO_API_KEY", key) ] in
  try_except
    (response <~ client_get client url headers (VFloat (lit "10.0")) ;;
     _ <~ lift (raise_for_status response) ;;
     lift (body_json response))
    (fun _ => ret VNone).

Definition make_defillama_request (client : AsyncClient) (url : str) : M value :=
  let headers := [ (lit "accept", VStr (lit "*/*")) ] in
  try_except
    (response <~ client_get client url headers (VFloat (lit "10.0")) ;;
     _ <~ lift (raise_for_status response) ;;
     lift (body_json response))
    (fun _ => ret VNone).

Definition make_expand_network_request (client : AsyncClient) (url : str) : M value :=
  key <~ globals DEFI_API_KEY ;;
  let headers :=
    [ (lit "accept", VStr (lit "*/*")); (lit "X-API-Key", key) ] in
  try_except
    (response <~ client_get client url headers (VFloat (lit "10.0")) ;;
     _ <~ lift (raise_for_status response) ;;
     lift (body_json response))
    (fun _ => ret VNone).

Record TextContent : Type := {
  type : str;
  text : str
}.

(** [d[k]] as an expression: a missing key raises [KeyError]. *)
Definition subscript (d : dict) (k : str) : result value :=
  match dict_get d k with
  | Some v => Return v
  | None => Raise (KeyError k)
  end.

(** The loop every branch with a whitelist runs:
    [for key in arguments.keys(): if key in condi_keys:
       request_data[key] = arguments[key]]. *)
Fixpoint copy_keys (condi_keys : list str) (arguments : dict) (keys : list str)
    (request_data : dict) : result dict :=
  match keys with
  | [] => Return request_data
  | key :: keys' =>
      if str_in key condi_keys then
        v <- subscript arguments key ;;
        copy_keys condi_keys arguments keys' (dict_set request_data key v)
      else copy_keys condi_keys arguments keys' request_data
  end.

(** [request_data = {}], then the loop when [arguments is not None]. *)
Definition collect_request_data (condi_keys : list str) (arguments : option dict)
    : result dict :=
  match arguments with
  | None => Return []
  | Some args => copy_keys condi_keys args (dict_keys args) []
  end.

Definition failed (msg : string) : list TextContent :=
  [ {| type := lit "text"; text := lit msg |} ].

Definition dumped (data : value) : list TextContent :=
  [ {| type := lit "text"; text := json_dumps data |} ].

Section Dispatcher.
Context `{UnicodeDB}.

Definition handle_call_tool (name : str) (arguments : option dict)
    : M (list TextContent) :=
  if str_eqb name (lit "listing-coins") then
    request_data <~ lift (collect_request_data (map lit
      [ "start"; "limit"; "price_min"; "price_max"; "market_cap_min";
        "market_cap_max"; "volume_24h_min"; "volume_24h_max";
        "circulating_supply_min"; "circulating_supply_max";
        "percent_change_24h_min"; "percent_change_24h_max"; "convert";
        "convert_id"; "sort"; "sort_dir"; "cryptocurrency_type"; "tag";
        "aux" ]%string) arguments) ;;
    client <~ new_AsyncClient ;;
    query <~ lift (urlencode request_data) ;;
    let listing_url :=
      lit "https://" ++ API_BASE ++ lit "/v1/cryptocurrency/listings/latest?"
      ++ query in
    listing_data <~ make_coinmarketcap_request client listing_url ;;
    if negb (truthy listing_data) then ret (failed "Failed to retrieve listing data")
    else ret (dumped listing_data)
  else if str_eqb name (lit "get-coin-info") then
    request_data <~ lift (collect_request_data (map lit
      [ "id"; "slug"; "symbol"; "address"; "skip_invalid"; "aux" ]%string)
      arguments) ;;
    client <~ new_AsyncClient ;;
    query <~ lift (urlencode request_data) ;;
    let coin_info_url :=
      lit "https://" ++ API_BASE ++ lit "/v2/cryptocurrency/info?" ++ query in
    coin_info_data <~ make_coinmarketcap_request client coin_info_url ;;
    if negb (truthy coin_info_data) then
      ret (failed "Failed to retrieve coin info data")
    else ret (dumped coin_info_data)
  else if str_eqb name (lit "get-coin-quotes") then
    request_data <~ lift (collect_request_data (map lit
      [ "id"; "slug"; "symbol"; "convert"; "convert_id"; "aux";
        "skip_invalid" ]%string) arguments) ;;
    client <~ new_AsyncClient ;;
    query <~ lift (urlencode request_data) ;;
    let coin_quotes_url :=
      lit "https://" ++ API_BASE ++ lit "/v2/cryptocurrency/quotes/latest?"
      ++ query in
    coin_quotes_data <~ make_coinmarketcap_request client coin_quotes_url ;;
    if negb (truthy coin_quotes_data) then
      ret (failed "Failed to retrieve coin quotes data")
    else ret (dumped coin_quotes_data)
  else if str_eqb name (lit "listing-protocols") then
    client <~ new_AsyncClient ;;
    let protocols_url := lit "https://api.llama.fi/protocols" in
    protocols_data <~ make_defillama_request client protocols_url ;;
    if negb (truthy protocols_data) then
      ret (failed "Failed to retrieve protocols data")
    else ret (dumped protocols_data)
  else if str_eqb name (lit "get-protocol-tvl") then
    request_data <~ lift (collect_request_data [ lit "protocol" ] arguments) ;;
    client <~ new_AsyncClient ;;
    protocol <~ lift (subscript request_data (lit "protocol")) ;;
    let protocols_url := lit "https://api.llama.fi/tvl/" ++ py_str protocol in
    protocols_data <~ make_defillama_request client protocols_url ;;
    if negb (truthy protocols_data) then
      ret (failed "Failed to retrieve protocols tvl data")
    else ret (dumped protocols_data)
  else if str_eqb name (lit "get-apr") then
    request_data <~ lift (collect_request_data [ lit "liquidStakingId" ] arguments) ;;
    client <~ new_AsyncClient ;;
    liquidStakingId <~ lift (subscript request_data (lit "liquidStakingId")) ;;
    let protocols_url :=
      lit "https://api.expand.network/liquidstaking/getapr?liquidStakingId="
      ++ py_str liquidStakingId in
    protocols_data <~ make_expand_network_request client protocols_url ;;
    if negb (truthy protocols_data) then
      ret (failed "Failed to retrieve protocols APR data.")
    else ret (dumped protocols_data)
  else raise (ValueError (lit "Unknown tool: " ++ name)).
End Dispatcher.

(** [main] binds the two keys before the server starts serving. *)
Definition main (api_key defi_api_key : str) (net : AsyncClient) : world :=
  {| API_KEY := VStr api_key; DEFI_API_KEY := VStr defi_api_key; network := net |}.

(** A character table for concrete runs: nothing above U+007F printable. *)
Definition ascii_db : UnicodeDB := {| isprintable := fun _ => false |}.

(** ** The dispatcher, taken apart

    What each branch of [handle_call_tool] fixes: the keys it copies, the
    client function it calls, the text it answers with when no data came
    back, and the URL it builds.  [handle_call_tool_stages] below shows that
    the dispatcher is these four put together. *)

Inductive upstream : Type := MarketData | ProtocolAnalytics | StakingYield.

Definition make_request (u : upstream) : AsyncClient -> str -> M value :=
  match u with
  | MarketData => make_coinmarketcap_request
  | ProtocolAnalytics => make_defillama_request
  | StakingYield => make_expand_network_request
  end.

Inductive tool : Type :=
| ListingCoins | GetCoinInfo | GetCoinQuotes
| ListingProtocols | GetProtocolTvl | GetApr.

Definition all_tools : list tool :=
  [ListingCoins; GetCoinInfo; GetCoinQuotes; ListingProtocols; GetProtocolTvl; GetApr].

Definition tool_name (t : tool) : str :=
  match t with
  | ListingCoins => lit "listing-coins"
  | GetCoinInfo => lit "get-coin-info"
  | GetCoinQuotes => lit "get-coin-quotes"
  | ListingProtocols => lit "listing-protocols"
  | GetProtocolTvl => lit "get-protocol-tvl"
  | GetApr => lit "get-apr"
  end.

(** The branch a call name selects, if any. *)
Definition tool_of_name (name : str) : option tool :=
  find (fun t => str_eqb name (tool_name t)) all_tools.

(** [condi_keys] of the branch; [listing-protocols] copies nothing. *)
Definition whitelist (t : tool) : list str :=
  match t with
  | ListingCoins => map lit
      [ "start"; "limit"; "price_min"; "price_max"; "market_cap_min";
        "market_cap_max"; "volume_24h_min"; "volume_24h_max";
        "circulating_supply_min"; "circulating_supply_max";
        "percent_change_24h_min"; "percent_change_24h_max"; "convert";
        "convert_id"; "sort"; "sort_dir"; "cryptocurrency_type"; "tag";
        "aux" ]%string
  | GetCoinInfo => map lit
      [ "id"; "slug"; "symbol"; "address"; "skip_invalid"; "aux" ]%string
  | GetCoinQuotes => map lit
      [ "id"; "slug"; "symbol"; "convert"; "convert_id"; "aux";
        "skip_invalid" ]%string
  | ListingProtocols => []
  | GetProtocolTvl => [ lit "protocol" ]
  | GetApr => [ lit "liquidStakingId" ]
  end.

Definition upstream_of (t : tool) : upstream :=
  match t with
  | ListingCoins | GetCoinInfo | GetCoinQuotes => MarketData
  | ListingProtocols | GetProtocolTvl => ProtocolAnalytics
  | GetApr => StakingYield
  end.

Definition failure_text (t : tool) : string :=
  match t with
  | ListingCoins => "Failed to retrieve listing data"
  | GetCoinInfo => "Failed to retrieve coin info data"
  | GetCoinQuotes => "Failed to retrieve coin quotes data"
  | ListingProtocols => "Failed to retrieve protocols data"
  | GetProtocolTvl => "Failed to retrieve protocols tvl data"
  | GetApr => "Failed to retrieve protocols APR data."
  end.

(** The fixed part of the branch's URL, up to where the arguments go. *)
Definition base_url (t : tool) : str :=
  match t with
  | ListingCoins =>
      lit "https://pro-api.coinmarketcap.com/v1/cryptocurrency/listings/latest?"
  | GetCoinInfo => lit "https://pro-api.coinmarketcap.com/v2/cryptocurrency/info?"
  | GetCoinQuotes =>
      lit "https://pro-api.coinmarketcap.com/v2/cryptocurrency/quotes/latest?"
  | ListingProtocols => lit "https://api.llama.fi/protocols"
  | GetProtocolTvl => lit "https://api.llama.fi/tvl/"
  | GetApr => lit "https://api.expand.network/liquidstaking/getapr?liquidStakingId="
  end.

(** The three tools whose URL carries [urlencode(request_data)]. *)
Definition query_tool (t : tool) : bool :=
  match t with
  | ListingCoins | GetCoinInfo | GetCoinQuotes => true
  | _ => false
  end.

Section Stages.
Context `{UnicodeDB}.

(** What follows the base in the branch's URL. *)
Definition url_tail (t : tool) (request_data : dict) : result str :=
  match t with
  | ListingCoins | GetCoinInfo | GetCoinQuotes => urlencode request_data
  | ListingProtocols => Return []
  | GetProtocolTvl =>
      v <- subscript request_data (lit "protocol") ;; Return (py_str v)
  | GetApr =>
      v <- subscript request_data (lit "liquidStakingId") ;; Return (py_str v)
  end.

(** The URL a call asks for, or the exception raised before any request. *)
Definition url_of (name : str) (arguments : option dict) : result str :=
  match tool_of_name name with
  | None => Raise (ValueError (lit "Unknown tool: " ++ name))
  | Some t =>
      request_data <- collect_request_data (whitelist t) arguments ;;
      tail <- url_tail t request_data ;;
      Return (base_url t ++ tail)
  end.
End Stages.

(** The answer built from what the client function returned. *)
Definition answer (t : tool) (data : value) : list TextContent :=
  if negb (truthy data) then failed (failure_text t) else dumped data.

(** The request a client function sends for [url]. *)
Definition request_of (u : upstream) (w : world) (url : str) : request :=
  {| req_url := url;
     req_headers :=
       match u with
       | MarketData =>
           [ (lit "Accepts", VStr (lit "application/json"));
             (lit "X-CMC_PRO_API_KEY", API_KEY w) ]
       | ProtocolAnalytics => [ (lit "accept", VStr (lit "*/*")) ]
       | StakingYield =>
           [ (lit "accept", VStr (lit "*/*")); (lit "X-API-Key", DEFI_API_KEY w) ]
       end;
     req_timeout := VFloat (lit "10.0") |}.

Definition is_success (r : response) : bool :=
  (200 <=? status_code r) && (status_code r <=? 299).

(** The ways a GET ends without data: it raised, the status is not 2xx, or
    the body does not decode. *)
Definition no_data (o : result response) : Prop :=
  match o with
  | Raise _ => True
  | Return r => is_success r = false \/ exists e, body_json r = Raise e
  end.

(** A GET that came back 2xx with a body decoding to [v]. *)
Definition yields (o : result response) (v : value) : Prop :=
  exists r, o = Return r /\ is_success r = true /\ body_json r = Return v.

(** A Python [dict] has no key twice. *)
Definition is_dict (d : dict) : Prop := NoDup (dict_keys d).

(** The entries of [d] whose key is in [keys]. *)
Definition restrict (keys : list str) (d : dict) : dict :=
  filter (fun kv => str_in (fst kv) keys) d.

(** The URLs of the requests on a log. *)
Definition urls (log : list request) : list str := map req_url log.

(** What a client function hands back for the outcome of its GET. *)
Definition data_of (o : result response) : value :=
  match o with
  | Raise _ => VNone
  | Return r =>
      if is_success r then
        match body_json r with
        | Return v => v
        | Raise _ => VNone
        end
      else VNone
  end.

(** Two networks for concrete runs: one that is down, one that answers
    every GET with status 200 and a body decoding to [v]. *)
Definition down : AsyncClient := fun _ => Raise ConnectError.

Definition serving (v : value) : AsyncClient :=
  fun _ => Return {| status_code := 200; body_json := Return v |}.

(** [arguments] is [None], or a mapping without [key]. *)
Definition missing (key : str) (arguments : option dict) : Prop :=
  match arguments with
  | None => True
  | Some args => dict_get args key = None
  end.

(** The characters a quoted query value is made of: the unreserved ones,
    [%] and [+]. *)
Definition query_safe (c : N) : bool :=
  str_contains c ALWAYS_SAFE || (c =? 37) || (c =? 43).

(** A character that stands for itself in a quoted text: ASCII, and neither
    [%] nor [+]. *)
Definition plain (c : N) : bool :=
  (c <? 128) && negb (c =? 37) && negb (c =? 43).

(** [s.split(sep)] for a one-character separator. *)
Fixpoint split_on (sep : N) (s : str) : list str :=
  match s with
  | [] => [[]]
  | c :: s' =>
      if c =? sep then [] :: split_on sep s'
      else match split_on sep s' with
           | p :: ps => (c :: p) :: ps
           | [] => [[c]]
           end
  end.

(** [s.split(sep, 1)] when [sep] occurs: what is before its first
    occurrence and what is after. *)
Fixpoint split_first (sep : N) (s : str) : option (str * str) :=
  match s with
  | [] => None
  | c :: s' =>
      if c =? sep then Some ([], s')
      else match split_first sep s' with
           | Some (a, b) => Some (c :: a, b)
           | None => None
           end
  end.

(** The loop of [parse_qsl(qs, keep_blank_values=True, errors='strict')]
    over the pieces of the query: empty pieces are skipped, a piece without
    [=] is a name with an empty value. *)
Fixpoint parse_pieces (pieces : list str) : result (list (str * str)) :=
  match pieces with
  | [] => Return []
  | name_value :: rest =>
      match name_value with
      | [] => parse_pieces rest
      | _ =>
          let nv :=
            match split_first 61 name_value with
            | Some nv => nv
            | None => (name_value, [])
            end in
          name <- unquote_plus (fst nv) ;;
          value <- unquote_plus (snd nv) ;;
          r <- parse_pieces rest ;;
          Return ((name, value) :: r)
      end
  end.

Definition parse_qsl (qs : str) : result (list (str * str)) :=
  parse_pieces (split_on 38 qs).

(** Printable ASCII, space to tilde. *)
Definition printable_ascii (c : N) : bool := (32 <=? c) && (c <=? 126).

(** The characters [repr] of a float is written with: digits, sign, point,
    exponent mark, and the letters of [inf] and [nan]. *)
Definition float_chars (r : str) : bool :=
  match r with
  | [] => false
  | _ => forallb (fun c => str_contains c (lit "0123456789+-.einfa")) r
  end.

(** Every float inside a value is kept as such a text. *)
Fixpoint floats_ok (v : value) : bool :=
  match v with
  | VFloat r => float_chars r
  | VList xs => forallb floats_ok xs
  | VDict kvs => forallb (fun kv => floats_ok (snd kv)) kvs
  | _ => true
  end.

(** The characters of a URL's query: what [quote_plus] writes, [=] and [&]. *)
Definition query_char (c : N) : bool :=
  query_safe c || (c =? 61) || (c =? 38).


(** ** Basic facts *)

Lemma str_eqb_refl (a : str) : str_eqb a a = true.
Proof.
  induction a as [|x a IH]; simpl; [reflexivity|].
  now rewrite N.eqb_refl, IH.
Qed.

Lemma str_eqb_eq (a b : str) : str_eqb a b = true <-> a = b.
Proof.
  split.
  - revert b. induction a as [|x a IH]; destruct b as [|y b]; simpl; try discriminate.
    + reflexivity.
    + intros E. apply andb_true_iff in E as [E1 E2].
      apply N.eqb_eq in E1. apply IH in E2. now subst.
  - intros ->. apply str_eqb_refl.
Qed.

Lemma str_eqb_neq (a b : str) : str_eqb a b = false <-> a <> b.
Proof.
  rewrite <- str_eqb_eq. destruct (str_eqb a b); intuition congruence.
Qed.

Lemma str_in_In (k : str) (ks : list str) : str_in k ks = true <-> In k ks.
Proof.
  unfold str_in. rewrite existsb_exists. split.
  - intros (x & Hx & E). apply str_eqb_eq in E. now subst.
  - intros Hk. exists k. split; [assumption | apply str_eqb_refl].
Qed.

(** ** The client functions *)

Lemma make_request_run (u : upstream) (client : AsyncClient) (url : str)
    (w : world) (log : list request) :
  make_request u client url w log
  = (Return (data_of (client (request_of u w url))), log ++ [request_of u w url]).
Proof.
  destruct u; cbv [make_request make_coinmarketcap_request make_defillama_request
    make_expand_network_request bind globals try_except client_get lift ret
    request_of data_of raise_for_status is_success];
  (destruct (client _) as [r|e]; [|reflexivity]);
  (destruct ((200 <=? status_code r) && (status_code r <=? 299)); [|reflexivity]);
  destruct (body_json r); reflexivity.
Qed.

(** ** The dispatcher as its stages *)

Lemma copy_keys_nil (args : dict) (keys : list str) (rd : dict) :
  copy_keys [] args keys rd = Return rd.
Proof.
  revert rd. induction keys as [|k keys IH]; intros rd; simpl; auto.
Qed.

Lemma collect_request_data_nil (arguments : option dict) :
  collect_request_data [] arguments = Return [].
Proof.
  destruct arguments as [args|]; simpl; [apply copy_keys_nil | reflexivity].
Qed.

Lemma ret_if {A} (b : bool) (x y : A) (w : world) (log : list request) :
  (if b then ret x else ret y) w log = (Return (if b then x else y), log).
Proof. now destruct b. Qed.

Section StagesFacts.
Context `{UnicodeDB}.

Lemma handle_call_tool_stages (name : str) (arguments : option dict)
    (w : world) (log : list request) :
  handle_call_tool name arguments w log =
  match tool_of_name name with
  | None => (Raise (ValueError (lit "Unknown tool: " ++ name)), log)
  | Some t =>
      match url_of name arguments with
      | Raise e => (Raise e, log)
      | Return url =>
          (data <~ make_request (upstream_of t) (network w) url ;;
           ret (answer t data)) w log
      end
  end.
Proof.
  unfold handle_call_tool, url_of, tool_of_name, all_tools, find.
  cbv [tool_name whitelist base_url].
  repeat match goal with
  | |- context [if str_eqb name ?l then _ else _] =>
      destruct (str_eqb name l)
  end; try reflexivity.
  all: try rewrite collect_request_data_nil.
  all: cbv [bind lift rbind new_AsyncClient url_tail].
  all: repeat match goal with
  | |- context [match collect_request_data ?k ?a with _ => _ end] =>
      destruct (collect_request_data k a)
  | |- context [match urlencode ?d with _ => _ end] => destruct (urlencode d)
  | |- context [match subscript ?d ?k with _ => _ end] => destruct (subscript d k)
  end; try reflexivity.
  all: change make_coinmarketcap_request with (make_request MarketData).
  all: change make_defillama_request with (make_request ProtocolAnalytics).
  all: change make_expand_network_request with (make_request StakingYield).
  all: cbv [upstream_of]; rewrite !make_request_run; cbv beta iota.
  all: rewrite ret_if; reflexivity.
Qed.
End StagesFacts.

Lemma tool_of_name_tool_name (t : tool) : tool_of_name (tool_name t) = Some t.
Proof. destruct t; reflexivity. Qed.

Lemma tool_of_name_Some (name : str) (t : tool) :
  tool_of_name name = Some t -> name = tool_name t.
Proof.
  unfold tool_of_name. intros E. apply find_some in E as [_ E].
  now apply str_eqb_eq.
Qed.

Lemma tool_name_inj (t t' : tool) : tool_name t = tool_name t' -> t = t'.
Proof.
  intros E. apply (f_equal tool_of_name) in E.
  rewrite !tool_of_name_tool_name in E. now inversion E.
Qed.

Section RunFacts.
Context `{UnicodeDB}.

Lemma url_of_unknown (name : str) (arguments : option dict) :
  tool_of_name name = None ->
  url_of name arguments = Raise (ValueError (lit "Unknown tool: " ++ name)).
Proof. unfold url_of. now intros ->. Qed.

(** An exception on the way to the URL leaves the dispatcher as it is,
    with nothing sent. *)
Lemma handle_call_tool_raise (name : str) (arguments : option dict) (e : exn)
    (w : world) (log : list request) :
  url_of name arguments = Raise e ->
  handle_call_tool name arguments w log = (Raise e, log).
Proof.
  intros E. rewrite handle_call_tool_stages.
  destruct (tool_of_name name) as [t|] eqn:Et.
  - now rewrite E.
  - rewrite url_of_unknown in E by assumption. now inversion E.
Qed.

(** With a URL in hand the dispatcher sends one request and answers from
    what came back. *)
Lemma handle_call_tool_return (t : tool) (arguments : option dict) (url : str)
    (w : world) (log : list request) :
  url_of (tool_name t) arguments = Return url ->
  handle_call_tool (tool_name t) arguments w log
  = (Return (answer t (data_of (network w (request_of (upstream_of t) w url)))),
     log ++ [request_of (upstream_of t) w url]).
Proof.
  intros E. rewrite handle_call_tool_stages, tool_of_name_tool_name, E.
  unfold bind. now rewrite make_request_run.
Qed.
End RunFacts.

(** ** Dictionaries and the copying loop *)

Lemma dict_get_In (d : dict) (k : str) :
  In k (dict_keys d) -> exists v, dict_get d k = Some v.
Proof.
  induction d as [|[k' v'] d IH]; simpl; [contradiction|].
  intros [E | HIn].
  - subst. rewrite str_eqb_refl. eauto.
  - destruct (str_eqb k k'); eauto.
Qed.

Lemma dict_get_None (d : dict) (k : str) :
  dict_get d k = None <-> ~ In k (dict_keys d).
Proof.
  induction d as [|[k' v'] d IH]; simpl; [tauto|].
  destruct (str_eqb k k') eqn:E.
  - apply str_eqb_eq in E. subst. split; [discriminate | tauto].
  - apply str_eqb_neq in E. rewrite IH. intuition congruence.
Qed.

Lemma dict_get_set_other (d : dict) (k k' : str) (v : value) :
  k <> k' -> dict_get (dict_set d k' v) k = dict_get d k.
Proof.
  intros Hne. induction d as [|[k0 v0] d IH]; simpl.
  - apply str_eqb_neq in Hne. now rewrite Hne.
  - destruct (str_eqb k' k0) eqn:E; simpl.
    + apply str_eqb_eq in E. subst k0. apply str_eqb_neq in Hne. now rewrite Hne.
    + now rewrite IH.
Qed.

Lemma dict_set_fresh (d : dict) (k : str) (v : value) :
  ~ In k (dict_keys d) -> dict_set d k v = d ++ [(k, v)].
Proof.
  induction d as [|[k0 v0] d IH]; simpl; [reflexivity|].
  intros Hn. destruct (str_eqb k k0) eqn:E.
  - apply str_eqb_eq in E. subst k0. exfalso. apply Hn. now left.
  - rewrite IH by tauto. reflexivity.
Qed.

Lemma dict_get_app_fresh (d1 d2 : dict) (k : str) :
  ~ In k (dict_keys d1) -> dict_get (d1 ++ d2) k = dict_get d2 k.
Proof.
  induction d1 as [|[k0 v0] d1 IH]; simpl; [reflexivity|].
  intros Hn. destruct (str_eqb k k0) eqn:E.
  - apply str_eqb_eq in E. subst k0. exfalso. apply Hn. now left.
  - apply IH. tauto.
Qed.

Lemma restrict_keys_incl (keys : list str) (d : dict) :
  incl (dict_keys (restrict keys d)) (dict_keys d).
Proof.
  intros k Hk. unfold dict_keys, restrict in *.
  apply in_map_iff in Hk as ([k' v] & E & HIn). apply filter_In in HIn as [HIn _].
  apply in_map_iff. eauto.
Qed.

(** The loop never fails on keys taken from the dictionary it reads. *)
Lemma copy_keys_total (condi_keys : list str) (args : dict) (keys : list str)
    (rd : dict) :
  incl keys (dict_keys args) ->
  exists rd', copy_keys condi_keys args keys rd = Return rd'.
Proof.
  revert rd. induction keys as [|k keys IH]; intros rd Hincl; simpl; [eauto|].
  assert (Hk : In k (dict_keys args)) by (apply Hincl; now left).
  assert (Hrest : incl keys (dict_keys args)) by (intros x Hx; apply Hincl; now right).
  destruct (str_in k condi_keys); [|now apply IH].
  unfold subscript. destruct (dict_get_In _ _ Hk) as [v ->]. simpl. now apply IH.
Qed.

(** A key the arguments do not have is not in what the loop builds. *)
Lemma copy_keys_absent (condi_keys : list str) (args : dict) (k : str)
    (keys : list str) (rd rd' : dict) :
  dict_get args k = None -> dict_get rd k = None ->
  copy_keys condi_keys args keys rd = Return rd' ->
  dict_get rd' k = None.
Proof.
  intros Ha. revert rd. induction keys as [|k0 keys IH]; intros rd Hrd; simpl.
  - intros E. now inversion E; subst.
  - destruct (str_in k0 condi_keys); [|now apply IH].
    unfold subscript. destruct (dict_get args k0) as [v|] eqn:E0; simpl; [|discriminate].
    apply IH. rewrite dict_get_set_other; [assumption|]. congruence.
Qed.

(** On a dictionary the loop builds exactly the entries whose key is in the
    whitelist, in their order and with their values. *)
Lemma copy_keys_restrict (condi_keys : list str) (done todo : dict) :
  is_dict (done ++ todo) ->
  copy_keys condi_keys (done ++ todo) (dict_keys todo) (restrict condi_keys done)
  = Return (restrict condi_keys (done ++ todo)).
Proof.
  revert done. induction todo as [|[k v] todo IH]; intros done Hd.
  - simpl. now rewrite app_nil_r.
  - assert (Hfresh : ~ In k (dict_keys done)).
    { unfold is_dict, dict_keys in Hd. rewrite map_app in Hd. simpl in Hd.
      apply NoDup_remove_2 in Hd. intros Hin. apply Hd. apply in_or_app. now left. }
    assert (Hsplit : done ++ (k, v) :: todo = (done ++ [(k, v)]) ++ todo)
      by now rewrite <- app_assoc.
    assert (Hsub : subscript (done ++ (k, v) :: todo) k = Return v).
    { unfold subscript. rewrite dict_get_app_fresh by assumption.
      simpl. now rewrite str_eqb_refl. }
    specialize (IH (done ++ [(k, v)])). rewrite <- Hsplit in IH.
    specialize (IH Hd).
    change (dict_keys ((k, v) :: todo)) with (k :: dict_keys todo).
    cbn [copy_keys]. rewrite Hsub. cbn [rbind].
    unfold restrict in IH at 1. rewrite filter_app in IH. cbn [filter fst] in IH.
    fold (restrict condi_keys done) in IH.
    destruct (str_in k condi_keys) eqn:Ek.
    + rewrite dict_set_fresh
        by (intros Hin; apply Hfresh; now apply (restrict_keys_incl condi_keys)).
      exact IH.
    + rewrite app_nil_r in IH. exact IH.
Qed.

Lemma collect_request_data_restrict (condi_keys : list str) (args : dict) :
  is_dict args ->
  collect_request_data condi_keys (Some args) = Return (restrict condi_keys args).
Proof.
  intros Hd. apply (copy_keys_restrict condi_keys [] args Hd).
Qed.

Lemma collect_request_data_total (condi_keys : list str) (arguments : option dict) :
  exists rd, collect_request_data condi_keys arguments = Return rd.
Proof.
  destruct arguments as [args|]; simpl; [|eauto].
  apply copy_keys_total, incl_refl.
Qed.

(** ** Required keys *)

Section Claims.
Context `{UnicodeDB}.

Lemma url_of_missing_key (t : tool) (key : str) (arguments : option dict) :
  (t = GetProtocolTvl /\ key = lit "protocol")
  \/ (t = GetApr /\ key = lit "liquidStakingId") ->
  missing key arguments ->
  url_of (tool_name t) arguments = Raise (KeyError key).
Proof.
  intros Ht Hm. unfold url_of. rewrite tool_of_name_tool_name.
  destruct (collect_request_data_total (whitelist t) arguments) as [rd Hrd].
  rewrite Hrd. cbn [rbind].
  assert (Hnone : dict_get rd key = None).
  { destruct arguments as [args|]; simpl in Hrd, Hm.
    - apply (copy_keys_absent (whitelist t) args key (dict_keys args) [] rd Hm);
        [reflexivity | exact Hrd].
    - now inversion Hrd. }
  destruct Ht as [[-> ->] | [-> ->]]; cbn [url_tail]; unfold subscript;
    now rewrite Hnone.
Qed.

(** C1 (as amended).  For a listed tool whose schema names a required key
    ([get-protocol-tvl] with [protocol], [get-apr] with [liquidStakingId]),
    a call whose arguments are [None] or lack that key raises [KeyError]
    for the key while the URL is being built: no URL is produced and no
    request is sent. *)
Theorem missing_required_key_raises (T : Tool) (key : str)
    (arguments : option dict) (w : world) (log : list request) :
  In T handle_list_tools -> In key (required T) -> missing key arguments ->
  handle_call_tool (name T) arguments w log = (Raise (KeyError key), log).
Proof.
  intros HT Hkey Hm. apply handle_call_tool_raise.
  simpl in HT.
  repeat (destruct HT as [<- | HT]; [simpl in Hkey|]); try contradiction.
  - destruct Hkey as [<- | []].
    apply (url_of_missing_key GetProtocolTvl); auto.
  - destruct Hkey as [<- | []].
    apply (url_of_missing_key GetApr); auto.
Qed.

(** ** Names the dispatcher knows *)

Lemma unknown_name_raises (name : str) (arguments : option dict) (w : world)
    (log : list request) :
  tool_of_name name = None ->
  handle_call_tool name arguments w log
  = (Raise (ValueError (lit "Unknown tool: " ++ name)), log).
Proof.
  intros E. apply handle_call_tool_raise. now apply url_of_unknown.
Qed.

(** A name outside the listing is refused, with nothing sent. *)
Lemma unlisted_name_raises (nm : str) (arguments : option dict) (w : world)
    (log : list request) :
  ~ In nm (map name handle_list_tools) ->
  handle_call_tool nm arguments w log
  = (Raise (ValueError (lit "Unknown tool: " ++ nm)), log).
Proof.
  intros Hn. apply unknown_name_raises.
  destruct (tool_of_name nm) as [t|] eqn:E; [|reflexivity].
  apply tool_of_name_Some in E. subst nm. exfalso. apply Hn.
  destruct t; simpl; tauto.
Qed.

(** C2.  [get-protocols] is among the names [handle_list_tools] returns,
    yet a call to it falls through every branch of the dispatcher and
    raises the unknown-tool error, with no request sent. *)
Theorem listed_get_protocols_is_refused :
  In (lit "get-protocols") (map name handle_list_tools)
  /\ forall (arguments : option dict) (w : world) (log : list request),
       handle_call_tool (lit "get-protocols") arguments w log
       = (Raise (ValueError (lit "Unknown tool: get-protocols")), log).
Proof.
  split.
  - simpl. tauto.
  - intros. reflexivity.
Qed.

(** ** What comes back *)

(** One request or none: what a call leaves on the log. *)
Lemma handle_call_tool_log (nm : str) (arguments : option dict) (w : world)
    (log : list request) :
  (exists e, url_of nm arguments = Raise e
             /\ handle_call_tool nm arguments w log = (Raise e, log))
  \/ (exists t url,
        nm = tool_name t /\ url_of nm arguments = Return url
        /\ handle_call_tool nm arguments w log
           = (Return (answer t (data_of (network w (request_of (upstream_of t) w url)))),
              log ++ [request_of (upstream_of t) w url])).
Proof.
  destruct (url_of nm arguments) as [url|e] eqn:E.
  - right. destruct (tool_of_name nm) as [t|] eqn:Et.
    + apply tool_of_name_Some in Et. subst nm. exists t, url.
      repeat split. now apply handle_call_tool_return.
    + rewrite url_of_unknown in E by assumption. discriminate.
  - left. exists e. split; [reflexivity | now apply handle_call_tool_raise].
Qed.

Lemma data_of_yields (o : result response) (v : value) :
  yields o v -> data_of o = v.
Proof.
  intros (r & -> & Hs & Hb). unfold data_of. now rewrite Hs, Hb.
Qed.

Lemma data_of_no_data (o : result response) :
  no_data o -> data_of o = VNone.
Proof.
  destruct o as [r|e]; simpl; [|reflexivity].
  intros [Hs | [e Hb]].
  - now rewrite Hs.
  - rewrite Hb. now destruct (is_success r).
Qed.

Lemma log_grew_by {A} (log : list A) (x y : A) :
  log ++ [x] = log ++ [y] -> x = y.
Proof. intros E. apply app_inv_head in E. now inversion E. Qed.

Lemma log_did_not_grow {A} (log : list A) (x : A) : log <> log ++ [x].
Proof.
  intros E. apply (f_equal (@List.length A)) in E.
  rewrite length_app in E. simpl in E. lia.
Qed.

(** C3 (as amended).  When the request a call sent came back 2xx with a
    body decoding to a value that counts as true ([not data] is false: not
    [None], [False], zero, or an empty string, list or dict), the call
    returns exactly one text item whose text is [json.dumps] of the whole
    value. *)
Theorem truthy_payload_is_dumped (nm : str) (arguments : option dict)
    (w : world) (log log' : list request) (r : result (list TextContent))
    (req : request) (v : value) :
  handle_call_tool nm arguments w log = (r, log') ->
  log' = log ++ [req] ->
  yields (network w req) v ->
  truthy v = true ->
  r = Return [ {| type := lit "text"; text := json_dumps v |} ].
Proof.
  intros Hrun Hlog Hy Ht.
  destruct (handle_call_tool_log nm arguments w log)
    as [(e & _ & E) | (t & url & _ & _ & E)];
    rewrite E in Hrun; inversion Hrun; subst.
  - exfalso. eapply log_did_not_grow; eassumption.
  - match goal with Hl : _ ++ _ = _ ++ _ |- _ => apply log_grew_by in Hl; subst req end.
    rewrite (data_of_yields _ _ Hy). unfold answer. now rewrite Ht.
Qed.

(** A payload that counts as false is answered like no payload at all. *)
Lemma falsy_payload_is_failure (nm : str) (arguments : option dict)
    (w : world) (log : list request) (r : result (list TextContent))
    (req : request) (v : value) :
  handle_call_tool nm arguments w log = (r, log ++ [req]) ->
  yields (network w req) v ->
  truthy v = false ->
  exists t, nm = tool_name t /\ r = Return (failed (failure_text t)).
Proof.
  intros Hrun Hy Ht.
  destruct (handle_call_tool_log nm arguments w log)
    as [(e & _ & E) | (t & url & Hn & _ & E)];
    rewrite E in Hrun; inversion Hrun; subst.
  - exfalso. eapply log_did_not_grow; eassumption.
  - match goal with Hl : _ ++ _ = _ ++ _ |- _ => apply log_grew_by in Hl; subst req end.
    exists t. split; [reflexivity|].
    rewrite (data_of_yields _ _ Hy). unfold answer. now rewrite Ht.
Qed.

(** C5.  Each of the three client functions sends one GET for the URL it
    is given and returns; it never raises.  When the GET raised (network
    failure, timeout), came back with a status outside 2xx, or carried a
    body that does not decode, what it returns is [None], whichever of
    these it was. *)
Theorem client_functions_swallow_failures
    (f : AsyncClient -> str -> M value) (client : AsyncClient) (url : str)
    (w : world) (log : list request) :
  In f [make_coinmarketcap_request; make_defillama_request;
        make_expand_network_request] ->
  exists (req : request) (v : value),
    req_url req = url
    /\ f client url w log = (Return v, log ++ [req])
    /\ (no_data (client req) -> v = VNone).
Proof.
  intros Hf.
  assert (Hu : exists u, f = make_request u).
  { destruct Hf as [<- | [<- | [<- | []]]];
      [exists MarketData | exists ProtocolAnalytics | exists StakingYield];
      reflexivity. }
  destruct Hu as [u ->].
  exists (request_of u w url), (data_of (client (request_of u w url))).
  split; [reflexivity|]. split; [apply make_request_run | apply data_of_no_data].
Qed.

(** ** The failure texts *)

(** When the request a call sent brought no data, the answer is the
    branch's failure text. *)
Lemma no_data_is_failure (t : tool) (arguments : option dict) (w : world)
    (log : list request) (r : result (list TextContent)) (req : request) :
  handle_call_tool (tool_name t) arguments w log = (r, log ++ [req]) ->
  no_data (network w req) ->
  r = Return [ {| type := lit "text"; text := lit (failure_text t) |} ].
Proof.
  intros Hrun Hn.
  destruct (handle_call_tool_log (tool_name t) arguments w log)
    as [(e & _ & E) | (t' & url & Hn' & _ & E)];
    rewrite E in Hrun; inversion Hrun; subst.
  - exfalso. eapply log_did_not_grow; eassumption.
  - match goal with Hl : _ ++ _ = _ ++ _ |- _ => apply log_grew_by in Hl; subst req end.
    rewrite (data_of_no_data _ Hn). simpl.
    apply tool_name_inj in Hn'. now subst.
Qed.

(** C6.  With the staking upstream down, [get-apr] with
    [{liquidStakingId: "123"}] answers one text item reading
    "Failed to retrieve protocols APR data." -- with a full stop the
    other five failure texts do not have, so not of the form
    "Failed to retrieve <subject> data". *)
Theorem get_apr_failure_text_has_full_stop (k1 k2 : value) (log : list request) :
  let w := {| API_KEY := k1; DEFI_API_KEY := k2; network := down |} in
  handle_call_tool (lit "get-apr")
    (Some [ (lit "liquidStakingId", VStr (lit "123")) ]) w log
  = (Return [ {| type := lit "text";
                 text := lit "Failed to retrieve protocols APR data." |} ],
     log ++ [ request_of StakingYield w
                (lit "https://api.expand.network/liquidstaking/getapr?liquidStakingId=123") ])
  /\ (forall subject : str,
        lit "Failed to retrieve protocols APR data."
        <> lit "Failed to retrieve " ++ subject ++ lit " data")
  /\ (forall t : tool, t <> GetApr ->
        exists subject : str,
          lit (failure_text t) = lit "Failed to retrieve " ++ subject ++ lit " data").
Proof.
  split; [reflexivity|]. split.
  - intros subject E.
    apply (f_equal (@rev N)) in E. rewrite !rev_app_distr in E.
    simpl in E. discriminate.
  - intros t Ht. destruct t; try contradiction.
    + exists (lit "listing"). reflexivity.
    + exists (lit "coin info"). reflexivity.
    + exists (lit "coin quotes"). reflexivity.
    + exists (lit "protocols"). reflexivity.
    + exists (lit "protocols tvl"). reflexivity.
Qed.

(** ** The URL *)

(** C7.  The URL a call asks for is fixed by the tool name and the
    arguments alone: under any two worlds (keys, network behaviour) and
    after any two logs, the same call sends requests for the same URLs --
    the one [url_of] computes, or none when building it raises. *)
Theorem url_is_a_function_of_the_call (nm : str) (arguments : option dict)
    (w1 w2 : world) (log1 log2 : list request) :
  exists (r1 r2 : result (list TextContent)) (sent1 sent2 : list request),
    handle_call_tool nm arguments w1 log1 = (r1, log1 ++ sent1)
    /\ handle_call_tool nm arguments w2 log2 = (r2, log2 ++ sent2)
    /\ urls sent1 = urls sent2
    /\ urls sent1 = match url_of nm arguments with
                    | Return url => [url]
                    | Raise _ => []
                    end.
Proof.
  destruct (handle_call_tool_log nm arguments w1 log1)
    as [(e & Eu & E1) | (t & url & Hn & Eu & E1)].
  - pose proof (handle_call_tool_raise nm arguments e w2 log2 Eu) as E2.
    exists (Raise e), (Raise e), [], [].
    rewrite !app_nil_r, Eu. auto.
  - subst nm.
    pose proof (handle_call_tool_return t arguments url w2 log2 Eu) as E2.
    eexists _, _, [_], [_]. rewrite Eu.
    split; [exact E1|]. split; [exact E2|]. split; reflexivity.
Qed.

(** C8.  [get-protocol-tvl] with [{protocol: "aave"}] asks for
    [https://api.llama.fi/tvl/aave]; [get-apr] with
    [{liquidStakingId: "123"}] asks for
    [https://api.expand.network/liquidstaking/getapr?liquidStakingId=123];
    [listing-protocols] asks for [https://api.llama.fi/protocols] whatever
    its arguments are. *)
Theorem catalogue_url_shapes (w : world) (log : list request) :
  (exists r,
     handle_call_tool (lit "get-protocol-tvl")
       (Some [ (lit "protocol", VStr (lit "aave")) ]) w log
     = (Return r,
        log ++ [ request_of ProtocolAnalytics w (lit "https://api.llama.fi/tvl/aave") ]))
  /\ (exists r,
       handle_call_tool (lit "get-apr")
         (Some [ (lit "liquidStakingId", VStr (lit "123")) ]) w log
       = (Return r,
          log ++ [ request_of StakingYield w
                     (lit "https://api.expand.network/liquidstaking/getapr?liquidStakingId=123") ]))
  /\ (forall arguments : option dict,
       exists r,
         handle_call_tool (lit "listing-protocols") arguments w log
         = (Return r,
            log ++ [ request_of ProtocolAnalytics w
                       (lit "https://api.llama.fi/protocols") ])).
Proof.
  split; [|split].
  - eexists. now apply (handle_call_tool_return GetProtocolTvl).
  - eexists. now apply (handle_call_tool_return GetApr).
  - intros arguments. eexists.
    apply (handle_call_tool_return ListingProtocols).
    unfold url_of. rewrite tool_of_name_tool_name.
    change (whitelist ListingProtocols) with (@nil str).
    rewrite collect_request_data_nil. reflexivity.
Qed.

(** C10.  [listing-coins], [get-coin-info] and [get-coin-quotes] called
    with [None] or with an empty mapping raise nothing: each sends one
    request, for its fixed path followed by [?] and an empty query, and
    returns. *)
Theorem query_tools_without_arguments (arguments : option dict) (w : world)
    (log : list request) :
  arguments = None \/ arguments = Some [] ->
  (exists r,
     handle_call_tool (lit "listing-coins") arguments w log
     = (Return r,
        log ++ [ request_of MarketData w
                   (lit "https://pro-api.coinmarketcap.com/v1/cryptocurrency/listings/latest?") ]))
  /\ (exists r,
       handle_call_tool (lit "get-coin-info") arguments w log
       = (Return r,
          log ++ [ request_of MarketData w
                     (lit "https://pro-api.coinmarketcap.com/v2/cryptocurrency/info?") ]))
  /\ (exists r,
       handle_call_tool (lit "get-coin-quotes") arguments w log
       = (Return r,
          log ++ [ request_of MarketData w
                     (lit "https://pro-api.coinmarketcap.com/v2/cryptocurrency/quotes/latest?") ])).
Proof.
  intros [-> | ->]; (split; [|split]); eexists.
  all: first [ now apply (handle_call_tool_return ListingCoins)
             | now apply (handle_call_tool_return GetCoinInfo)
             | now apply (handle_call_tool_return GetCoinQuotes) ].
Qed.

(** ** The whitelist *)

Lemma restrict_keys (keys : list str) (d : dict) (k : str) :
  In k (dict_keys (restrict keys d)) <-> In k (dict_keys d) /\ In k keys.
Proof.
  unfold dict_keys, restrict. rewrite !in_map_iff. split.
  - intros ([k' v] & E & Hf). apply filter_In in Hf as [Hin Hw].
    simpl in *. subst k'. apply str_in_In in Hw. split; [|assumption].
    exists (k, v). auto.
  - intros [([k' v] & E & Hin) Hw]. simpl in E. subst k'.
    exists (k, v). split; [reflexivity|]. apply filter_In. split; [assumption|].
    now apply str_in_In.
Qed.

Lemma url_of_dict (t : tool) (args : dict) :
  is_dict args ->
  url_of (tool_name t) (Some args)
  = (tail <- url_tail t (restrict (whitelist t) args) ;; Return (base_url t ++ tail)).
Proof.
  intros Hd. unfold url_of.
  now rewrite tool_of_name_tool_name, collect_request_data_restrict.
Qed.

End Claims.

(** ** UTF-8: decoding undoes encoding *)

(** Linear arithmetic with division and remainder by constants. *)
Ltac dlia := zify; Z.to_euclidean_division_equations; lia.

Ltac decide_tests :=
  repeat match goal with
  | |- context [?a <? ?b] => destruct (N.ltb_spec a b); try (exfalso; dlia)
  | |- context [?a <=? ?b] => destruct (N.leb_spec a b); try (exfalso; dlia)
  | |- context [?a =? ?b] => destruct (N.eqb_spec a b); try (exfalso; dlia)
  end.

Lemma scalar_spec (c : N) :
  scalar c = true <-> c < 0xD800 \/ (0xE000 <= c /\ c < 0x110000).
Proof.
  unfold scalar. rewrite orb_true_iff, andb_true_iff, N.ltb_lt, N.leb_le, N.ltb_lt.
  reflexivity.
Qed.

Lemma utf8_decode_encode_char (c : N) (rest : bytes) (s : str) :
  scalar c = true ->
  utf8_decode rest = Return s ->
  exists b, utf8_encode_char c = Return b
            /\ utf8_decode (b ++ rest) = Return (c :: s)
            /\ Forall (fun x => x < 256) b.
Proof.
  intros Hc Hrest. apply scalar_spec in Hc.
  unfold utf8_encode_char.
  destruct (N.ltb_spec c 0x80); [|destruct (N.ltb_spec c 0x800);
    [|destruct (N.ltb_spec c 0x10000); [|destruct (N.ltb_spec c 0x110000); [|lia]]]].
  - eexists. split; [reflexivity|]. split.
    + simpl. decide_tests. now rewrite Hrest.
    + repeat constructor. lia.
  - eexists. split; [reflexivity|]. split.
    + cbn [app utf8_decode]. unfold utf8_cont.
      decide_tests. cbn [andb]. rewrite Hrest. cbn [rbind].
      match goal with
      | |- Return (?x :: _) = _ => replace x with c by dlia
      end.
      reflexivity.
    + repeat constructor; dlia.
  - assert (Hs : (0xD800 <=? c) && (c <? 0xE000) = false).
    { apply andb_false_iff. rewrite N.leb_gt, N.ltb_ge. lia. }
    rewrite Hs. eexists. split; [reflexivity|]. split.
    + cbn [app utf8_decode]. unfold utf8_cont, scalar.
      set (c' := (0xE0 + c / 4096 - 0xE0) * 4096 + (0x80 + (c / 64) mod 64 - 0x80) * 64
                 + (0x80 + c mod 64 - 0x80)).
      assert (Ec : c' = c) by (subst c'; dlia).
      rewrite Ec. decide_tests; cbn [andb orb]; rewrite Hrest; reflexivity.
    + repeat constructor; dlia.
  - eexists. split; [reflexivity|]. split.
    + cbn [app utf8_decode]. unfold utf8_cont.
      set (c' := (0xF0 + c / 262144 - 0xF0) * 262144
                 + (0x80 + (c / 4096) mod 64 - 0x80) * 4096
                 + (0x80 + (c / 64) mod 64 - 0x80) * 64
                 + (0x80 + c mod 64 - 0x80)).
      assert (Ec : c' = c) by (subst c'; dlia).
      rewrite Ec. decide_tests; cbn [andb]; rewrite Hrest; reflexivity.
    + repeat constructor; dlia.
Qed.

Lemma utf8_decode_encode (s : str) :
  scalar_str s ->
  exists bs, utf8_encode s = Return bs
             /\ utf8_decode bs = Return s
             /\ Forall (fun x => x < 256) bs.
Proof.
  induction 1 as [|c s Hc Hs (bs & E & D & B)].
  - exists []. repeat split; constructor.
  - destruct (utf8_decode_encode_char c bs s Hc D) as (b & Eb & Db & Bb).
    exists (b ++ bs). cbn [utf8_encode]. rewrite Eb, E. cbn [rbind].
    repeat split; [assumption | now apply Forall_app].
Qed.

Lemma utf8_encode_char_scalar (c : N) (b : bytes) :
  utf8_encode_char c = Return b -> scalar c = true.
Proof.
  unfold utf8_encode_char. intros E. apply scalar_spec.
  destruct (N.ltb_spec c 0x80); [lia|].
  destruct (N.ltb_spec c 0x800); [lia|].
  destruct (N.ltb_spec c 0x10000).
  - destruct (N.leb_spec 0xD800 c); destruct (N.ltb_spec c 0xE000);
      simpl in E; try discriminate; lia.
  - destruct (N.ltb_spec c 0x110000); [lia | discriminate].
Qed.

Lemma utf8_encode_scalar (s : str) (bs : bytes) :
  utf8_encode s = Return bs -> scalar_str s.
Proof.
  revert bs. induction s as [|c s IH]; intros bs E; [constructor|].
  cbn [utf8_encode] in E.
  destruct (utf8_encode_char c) as [b|] eqn:Ec; [|discriminate].
  destruct (utf8_encode s) as [bs'|] eqn:Es; [|discriminate].
  constructor; [now apply utf8_encode_char_scalar in Ec | now apply (IH bs')].
Qed.

(** ** Quoting, and unquoting it *)

Lemma hex_value_hex_digit (d : N) :
  d < 16 -> hex_value (hex_digit true d) = Some d.
Proof.
  intros Hd. unfold hex_value, hex_digit.
  destruct (N.ltb_spec d 10); decide_tests; cbn [andb]; f_equal; lia.
Qed.

Lemma hex_digit_safe (d : N) :
  d < 16 -> str_contains (hex_digit true d) ALWAYS_SAFE = true
            /\ hex_digit true d <> 32 /\ hex_digit true d <> 43.
Proof.
  intros Hd.
  assert (Hcases : In d (map N.of_nat (seq 0 16))).
  { apply in_map_iff. exists (N.to_nat d). split; [lia|]. apply in_seq. lia. }
  simpl in Hcases.
  repeat (destruct Hcases as [<- | Hcases];
          [split; [reflexivity | split; discriminate]|]).
  contradiction.
Qed.

Lemma hex_fixed_2 (b : N) :
  hex_fixed true 2 b = [hex_digit true ((b / 16) mod 16); hex_digit true (b mod 16)].
Proof. reflexivity. Qed.

Lemma str_contains_In (c : N) (s : str) : str_contains c s = true <-> In c s.
Proof.
  unfold str_contains. rewrite existsb_exists. split.
  - intros (x & Hx & E). apply N.eqb_eq in E. now subst.
  - intros Hc. exists c. split; [assumption | apply N.eqb_refl].
Qed.

Lemma plain_safe (safe : str) (b : N) :
  forallb plain safe = true -> str_contains b safe = true -> plain b = true.
Proof.
  intros Hall Hb. rewrite forallb_forall in Hall. apply Hall.
  now apply str_contains_In.
Qed.

Lemma plain_spec (c : N) : plain c = true <-> c < 128 /\ c <> 37 /\ c <> 43.
Proof.
  unfold plain. rewrite !andb_true_iff, !negb_true_iff, N.ltb_lt, !N.eqb_neq.
  tauto.
Qed.

Lemma quote_from_bytes_cons (b : N) (bs : bytes) (safe : str) :
  quote_from_bytes (b :: bs) safe = quote_byte safe b ++ quote_from_bytes bs safe.
Proof. reflexivity. Qed.

(** Unquoting gives back the bytes that were quoted. *)
Lemma unquote_to_bytes_quote (safe : str) (bs : bytes) :
  forallb plain (ALWAYS_SAFE ++ safe) = true ->
  Forall (fun x => x < 256) bs ->
  unquote_to_bytes (quote_from_bytes bs safe) = Return bs.
Proof.
  intros Hsafe. induction 1 as [|b bs Hb Hbs IH]; [reflexivity|].
  rewrite quote_from_bytes_cons. unfold quote_byte.
  destruct (str_contains b (ALWAYS_SAFE ++ safe)) eqn:Es.
  - apply (plain_safe _ _ Hsafe), plain_spec in Es as (Hlt & H37 & _).
    cbn [app unquote_to_bytes].
    destruct (N.eqb_spec b 37); [contradiction|].
    unfold utf8_encode_char. destruct (N.ltb_spec b 0x80); [|lia].
    cbn [rbind]. now rewrite IH.
  - rewrite hex_fixed_2. cbn [app unquote_to_bytes N.eqb Pos.eqb].
    rewrite !hex_value_hex_digit by dlia. rewrite IH. cbn [rbind].
    do 2 f_equal. dlia.
Qed.

(** Quoted text has no [+] of its own. *)
Lemma quote_from_bytes_no_plus (safe : str) (bs : bytes) :
  forallb plain (ALWAYS_SAFE ++ safe) = true ->
  ~ In 43 (quote_from_bytes bs safe).
Proof.
  intros Hsafe. induction bs as [|b bs IH]; [auto|].
  rewrite quote_from_bytes_cons. unfold quote_byte. intros Hin.
  apply in_app_or in Hin as [Hin | Hin]; [|auto].
  destruct (str_contains b (ALWAYS_SAFE ++ safe)) eqn:Es.
  - apply (plain_safe _ _ Hsafe), plain_spec in Es as (_ & _ & H43).
    destruct Hin as [E | []]. congruence.
  - rewrite hex_fixed_2 in Hin.
    destruct (hex_digit_safe ((b / 16) mod 16) ltac:(dlia)) as (_ & _ & H1).
    destruct (hex_digit_safe (b mod 16) ltac:(dlia)) as (_ & _ & H2).
    destruct Hin as [E | [E | [E | []]]]; [discriminate | congruence | congruence].
Qed.

Lemma replace_char_absent (old new : N) (s : str) :
  ~ In old s -> replace_char old new s = s.
Proof.
  induction s as [|c s IH]; [reflexivity|].
  intros Hn. simpl. destruct (N.eqb_spec c old).
  - exfalso. apply Hn. now left.
  - rewrite IH; [reflexivity|]. intros Hin. apply Hn. now right.
Qed.

Lemma replace_char_back (a b : N) (s : str) :
  ~ In b s -> replace_char b a (replace_char a b s) = s.
Proof.
  induction s as [|c s IH]; [reflexivity|].
  intros Hn. simpl. destruct (N.eqb_spec c a).
  - rewrite N.eqb_refl, IH; [congruence|]. intros Hin. apply Hn. now right.
  - destruct (N.eqb_spec c b).
    + exfalso. apply Hn. now left.
    + rewrite IH; [reflexivity|]. intros Hin. apply Hn. now right.
Qed.

Lemma safe_sets_plain :
  forallb plain (ALWAYS_SAFE ++ []) = true
  /\ forallb plain (ALWAYS_SAFE ++ [] ++ lit " ") = true.
Proof. split; reflexivity. Qed.

(** [unquote_plus] undoes [quote_plus] on every text UTF-8 can carry. *)
Lemma unquote_plus_quote_plus (s : str) :
  scalar_str s ->
  exists q, quote_plus s [] = Return q /\ unquote_plus q = Return s.
Proof.
  intros Hs. destruct safe_sets_plain as [Hsafe Hsafe'].
  destruct (utf8_decode_encode s Hs) as (bs & E & D & B).
  unfold quote_plus, quote, unquote_plus, unquote.
  destruct s as [|c s].
  - exists []. split; reflexivity.
  - destruct (str_contains 32 (c :: s)); cbn [negb]; rewrite E; cbn [rbind];
      eexists; (split; [reflexivity|]).
    + rewrite replace_char_back by now apply quote_from_bytes_no_plus.
      rewrite unquote_to_bytes_quote by assumption. exact D.
    + rewrite replace_char_absent by now apply quote_from_bytes_no_plus.
      rewrite unquote_to_bytes_quote by assumption. exact D.
Qed.

Lemma quote_byte_safe (b : N) :
  Forall (fun c => query_safe c = true) (quote_byte [] b)
  /\ Forall (fun c => query_safe c = true)
       (replace_char 32 43 (quote_byte ([] ++ lit " ") b)).
Proof.
  unfold quote_byte. rewrite hex_fixed_2.
  assert (Hh : forall d, d < 16 ->
             query_safe (hex_digit true d) = true
             /\ (hex_digit true d =? 32) = false).
  { intros d Hd. destruct (hex_digit_safe d Hd) as (Hs & H32 & _).
    unfold query_safe. rewrite Hs. split; [reflexivity | now apply N.eqb_neq]. }
  destruct (Hh ((b / 16) mod 16) ltac:(dlia)) as [Hq1 Hn1].
  destruct (Hh (b mod 16) ltac:(dlia)) as [Hq2 Hn2].
  split.
  - destruct (str_contains b (ALWAYS_SAFE ++ [])) eqn:Es.
    + rewrite app_nil_r in Es. repeat constructor. unfold query_safe. now rewrite Es.
    + repeat constructor; assumption.
  - destruct (str_contains b (ALWAYS_SAFE ++ [] ++ lit " ")) eqn:Es.
    + cbn [replace_char map]. repeat constructor.
      destruct (N.eqb_spec b 32); [reflexivity|].
      apply str_contains_In, in_app_or in Es as [Hin | Hin].
      * apply str_contains_In in Hin. unfold query_safe. now rewrite Hin.
      * destruct Hin as [E | []]. simpl in E. congruence.
    + cbn [replace_char map]. rewrite Hn1, Hn2. repeat constructor; assumption.
Qed.

Lemma replace_char_app (a b : N) (s t : str) :
  replace_char a b (s ++ t) = replace_char a b s ++ replace_char a b t.
Proof. apply map_app. Qed.

Lemma quote_from_bytes_safe (bs : bytes) :
  Forall (fun c => query_safe c = true) (quote_from_bytes bs [])
  /\ Forall (fun c => query_safe c = true)
       (replace_char 32 43 (quote_from_bytes bs ([] ++ lit " "))).
Proof.
  induction bs as [|b bs [IH1 IH2]]; [split; constructor|].
  rewrite !quote_from_bytes_cons, replace_char_app.
  destruct (quote_byte_safe b). split; now apply Forall_app.
Qed.

(** Whatever [quote_plus] returns is made of unreserved characters, [%]
    and [+]. *)
Lemma quote_plus_safe (s q : str) :
  quote_plus s [] = Return q -> Forall (fun c => query_safe c = true) q.
Proof.
  unfold quote_plus, quote. destruct s as [|c s].
  - intros E. inversion E. constructor.
  - destruct (utf8_encode (c :: s)) as [bs|]; destruct (str_contains 32 (c :: s));
      cbn [negb rbind]; intros E; inversion E; apply quote_from_bytes_safe.
Qed.

(** ** The query string *)




Lemma query_safe_reserved (q : str) :
  Forall (fun c => query_safe c = true) q ->
  ~ In 32 q /\ ~ In 38 q /\ ~ In 47 q /\ ~ In 35 q /\ ~ In 61 q.
Proof.
  intros Hq. rewrite Forall_forall in Hq.
  repeat split; intros Hin; apply Hq in Hin; discriminate.
Qed.

Section Query.
Context `{UnicodeDB}.

(** No piece holds a [&], so the pieces can be told apart. *)
Lemma urlencode_items_no_amp (d : dict) (l : list str) :
  urlencode_items d = Return l -> Forall (fun p => ~ In 38 p) l.
Proof.
  revert l. induction d as [|[k' v'] d IH]; intros l E.
  - inversion E. constructor.
  - cbn [urlencode_items py_str] in E.
    destruct (quote_plus k' []) as [kq|] eqn:Ek; [|discriminate].
    destruct (quote_plus (py_str v') []) as [vq|] eqn:Ev; [|discriminate].
    destruct (urlencode_items d) as [l'|] eqn:El; [|discriminate].
    cbn [rbind] in E. inversion E; subst l. constructor; [|now apply IH].
    apply quote_plus_safe, query_safe_reserved in Ek as (_ & Hk & _).
    apply quote_plus_safe, query_safe_reserved in Ev as (_ & Hv & _).
    intros Hin. apply in_app_or in Hin as [Hin | Hin]; [auto|].
    destruct Hin as [E' | Hin]; [discriminate | auto].
Qed.

(** The URL of the request a call sent is the one [url_of] computes. *)
Lemma sent_url (nm : str) (arguments : option dict) (w : world)
    (log : list request) (r : result (list TextContent)) (req : request) :
  handle_call_tool nm arguments w log = (r, log ++ [req]) ->
  url_of nm arguments = Return (req_url req).
Proof.
  intros Hrun.
  destruct (handle_call_tool_log nm arguments w log)
    as [(e & _ & E) | (t & url & _ & Eu & E)];
    rewrite E in Hrun; inversion Hrun; subst.
  - exfalso. eapply log_did_not_grow; eassumption.
  - match goal with Hl : _ ++ _ = _ ++ _ |- _ => apply log_grew_by in Hl; subst req end.
    exact Eu.
Qed.


End Query.

(** ** Reading the query string back *)

Lemma split_on_clean (sep : N) (p : str) :
  ~ In sep p -> split_on sep p = [p].
Proof.
  induction p as [|c p IH]; [reflexivity|].
  intros Hn. cbn [split_on]. destruct (N.eqb_spec c sep).
  - exfalso. apply Hn. now left.
  - rewrite IH; [reflexivity|]. intros Hin. apply Hn. now right.
Qed.

Lemma split_on_app (sep : N) (p s : str) :
  ~ In sep p -> split_on sep (p ++ sep :: s) = p :: split_on sep s.
Proof.
  induction p as [|c p IH]; intros Hn.
  - cbn [app split_on]. now rewrite N.eqb_refl.
  - cbn [app split_on]. destruct (N.eqb_spec c sep).
    + exfalso. apply Hn. now left.
    + rewrite IH; [reflexivity|]. intros Hin. apply Hn. now right.
Qed.

Lemma split_on_join (sep : N) (pieces : list str) :
  pieces <> [] -> Forall (fun p => ~ In sep p) pieces ->
  split_on sep (join [sep] pieces) = pieces.
Proof.
  intros Hne Hall. induction Hall as [|p rest Hp Hrest IH]; [contradiction|].
  destruct rest as [|p' rest].
  - cbn [join]. now apply split_on_clean.
  - change (join [sep] (p :: p' :: rest)) with (p ++ sep :: join [sep] (p' :: rest)).
    rewrite split_on_app by assumption. f_equal. apply IH. discriminate.
Qed.

Lemma split_first_app (sep : N) (a b : str) :
  ~ In sep a -> split_first sep (a ++ sep :: b) = Some (a, b).
Proof.
  induction a as [|c a IH]; intros Hn.
  - cbn [app split_first]. now rewrite N.eqb_refl.
  - cbn [app split_first]. destruct (N.eqb_spec c sep).
    + exfalso. apply Hn. now left.
    + rewrite IH; [reflexivity|]. intros Hin. apply Hn. now right.
Qed.

Lemma parse_pieces_cons (name_value : str) (rest : list str) (n v : str) :
  name_value <> [] -> split_first 61 name_value = Some (n, v) ->
  parse_pieces (name_value :: rest)
  = (name <- unquote_plus n ;;
     value <- unquote_plus v ;;
     r <- parse_pieces rest ;;
     Return ((name, value) :: r)).
Proof.
  intros Hne E. destruct name_value as [|c p]; [contradiction|].
  cbn [parse_pieces]. now rewrite E.
Qed.

(** Whatever [quote_plus] returned, [unquote_plus] reads back. *)
Lemma unquote_plus_of_quoted (s q : str) :
  quote_plus s [] = Return q -> unquote_plus q = Return s.
Proof.
  intros E.
  assert (Hs : scalar_str s).
  { destruct s as [|c s]; [constructor|].
    unfold quote_plus, quote in E.
    destruct (utf8_encode (c :: s)) as [bs|] eqn:Eb.
    - now apply utf8_encode_scalar in Eb.
    - destruct (str_contains 32 (c :: s)); discriminate. }
  destruct (unquote_plus_quote_plus s Hs) as (q' & E' & U).
  rewrite E in E'. inversion E'. now subst.
Qed.

Section ReadBack.
Context `{UnicodeDB}.

(** The pieces [urlencode] joins parse back to the entries it was given,
    names and values as text. *)
Lemma parse_pieces_urlencode_items (d : dict) (l : list str) :
  urlencode_items d = Return l ->
  parse_pieces l = Return (map (fun kv => (fst kv, py_str (snd kv))) d).
Proof.
  revert l. induction d as [|[k v] d IH]; intros l E.
  - inversion E. reflexivity.
  - cbn [urlencode_items py_str] in E.
    destruct (quote_plus k []) as [kq|] eqn:Ek; [|discriminate].
    destruct (quote_plus (py_str v) []) as [vq|] eqn:Ev; [|discriminate].
    destruct (urlencode_items d) as [l'|] eqn:El; [|discriminate].
    cbn [rbind] in E. inversion E; subst l.
    pose proof (quote_plus_safe _ _ Ek) as Hk.
    apply query_safe_reserved in Hk as (_ & _ & _ & _ & Hk).
    change (parse_pieces ((kq ++ 61 :: vq) :: l')
            = Return ((k, py_str v) :: map (fun kv => (fst kv, py_str (snd kv))) d)).
    etransitivity;
      [apply (parse_pieces_cons (kq ++ 61 :: vq) l' kq vq);
         [destruct kq; discriminate | now apply split_first_app]|].
    rewrite (unquote_plus_of_quoted _ _ Ek), (unquote_plus_of_quoted _ _ Ev).
    cbn [rbind]. now rewrite (IH l' eq_refl).
Qed.

Lemma urlencode_items_nonempty (d : dict) (l : list str) :
  urlencode_items d = Return l -> d <> [] -> l <> [].
Proof.
  destruct d as [|[k v] d]; [contradiction|]. intros E _.
  cbn [urlencode_items] in E.
  destruct (quote_plus (py_str (VStr k)) []); [|discriminate].
  destruct (quote_plus (py_str v) []); [|discriminate].
  destruct (urlencode_items d); [|discriminate].
  cbn [rbind] in E. inversion E. discriminate.
Qed.

(** [parse_qsl] of [urlencode(d)] is [d], names and values as text. *)
Lemma parse_qsl_urlencode (d : dict) (query : str) :
  urlencode d = Return query ->
  parse_qsl query = Return (map (fun kv => (fst kv, py_str (snd kv))) d).
Proof.
  unfold urlencode, parse_qsl. intros E.
  destruct (urlencode_items d) as [l|] eqn:El; [|discriminate].
  cbn [rbind] in E. inversion E; subst query.
  destruct d as [|kv d].
  - inversion El. reflexivity.
  - change (lit "&") with [38].
    rewrite split_on_join.
    + now apply parse_pieces_urlencode_items.
    + apply (urlencode_items_nonempty _ _ El). discriminate.
    + now apply (urlencode_items_no_amp _ _ El).
Qed.
End ReadBack.

(** ** What goes into the URL, and how *)

Section Encoding.
Context `{UnicodeDB}.

(** C4.  On every branch the loop keeps exactly the entries of the
    arguments whose key is in the branch's whitelist -- the keys present
    in both, with their values, in their order -- and raises nothing.
    Keys outside the whitelist have no part in what follows: two argument
    mappings that agree on the whitelisted entries build the same URL and
    make the same call, whatever else they hold.  On the query-string
    tools the parameter names read back from the URL requested are the
    whitelisted keys of the arguments and no others. *)
Theorem only_whitelisted_keys_reach_the_url (t : tool) (args args' : dict)
    (w : world) (log : list request) :
  is_dict args -> is_dict args' ->
  restrict (whitelist t) args = restrict (whitelist t) args' ->
  collect_request_data (whitelist t) (Some args)
  = Return (restrict (whitelist t) args)
  /\ (forall k, In k (dict_keys (restrict (whitelist t) args))
                <-> In k (dict_keys args) /\ In k (whitelist t))
  /\ url_of (tool_name t) (Some args) = url_of (tool_name t) (Some args')
  /\ handle_call_tool (tool_name t) (Some args) w log
     = handle_call_tool (tool_name t) (Some args') w log
  /\ (query_tool t = true ->
      forall r req,
        handle_call_tool (tool_name t) (Some args) w log = (r, log ++ [req]) ->
        exists (query : str) (decoded : list (str * str)),
          req_url req = base_url t ++ query
          /\ parse_qsl query = Return decoded
          /\ map fst decoded = dict_keys (restrict (whitelist t) args)).
Proof.
  intros Hd Hd' Hr.
  assert (Hu : url_of (tool_name t) (Some args) = url_of (tool_name t) (Some args'))
    by now rewrite !url_of_dict, Hr.
  split; [now apply collect_request_data_restrict|].
  split; [intros k; apply restrict_keys|].
  split; [exact Hu|].
  split; [rewrite !handle_call_tool_stages, Hu; reflexivity|].
  intros Hq r req Hrun. apply sent_url in Hrun.
  assert (Htail : url_tail t (restrict (whitelist t) args)
                  = urlencode (restrict (whitelist t) args))
    by (destruct t; try discriminate; reflexivity).
  rewrite url_of_dict, Htail in Hrun by assumption.
  destruct (urlencode (restrict (whitelist t) args)) as [query|] eqn:El;
    [|discriminate].
  cbn [rbind] in Hrun. inversion Hrun as [Hurl].
  exists query, (map (fun kv => (fst kv, py_str (snd kv))) (restrict (whitelist t) args)).
  split; [reflexivity|]. split; [now apply parse_qsl_urlencode|].
  unfold dict_keys. rewrite map_map. reflexivity.
Qed.

End Encoding.

(** ** Concrete runs *)

(** [listing-coins] with [{limit: 5}], the upstream serving [{"ok": true}]:
    one request, and the body handed back as JSON text. *)
Example listing_coins_limit_5 :
  let w := main (lit "k") (lit "d") (serving (VDict [ (lit "ok", VBool true) ])) in
  @handle_call_tool ascii_db (lit "listing-coins") (Some [ (lit "limit", VInt 5) ]) w []
  = (Return [ {| type := lit "text"; text := [123; 34] ++ lit "ok" ++ [34] ++ lit ": true}" |} ],
     [ request_of MarketData w
         (lit "https://pro-api.coinmarketcap.com/v1/cryptocurrency/listings/latest?limit=5") ]).
Proof. reflexivity. Qed.

(** [get-coin-quotes] with [{symbol: "BTC", bogus: "x"}], the upstream
    down: the failure text, and no [bogus] in the URL. *)
Example get_coin_quotes_bogus_key :
  let w := main (lit "k") (lit "d") down in
  @handle_call_tool ascii_db (lit "get-coin-quotes")
    (Some [ (lit "symbol", VStr (lit "BTC")); (lit "bogus", VStr (lit "x")) ]) w []
  = (Return [ {| type := lit "text"; text := lit "Failed to retrieve coin quotes data" |} ],
     [ request_of MarketData w
         (lit "https://pro-api.coinmarketcap.com/v2/cryptocurrency/quotes/latest?symbol=BTC") ]).
Proof. reflexivity. Qed.

(** Reserved characters in a query value. *)
Example quote_plus_reserved :
  quote_plus (lit "a b&c/d#") [] = Return (lit "a+b%26c%2Fd%23").
Proof. reflexivity. Qed.

(** A lone surrogate is text UTF-8 cannot carry: quoting it raises, which
    is why the round trip is stated for [scalar_str] values. *)
Example quote_plus_lone_surrogate :
  quote_plus [0xD800] [] = Raise UnicodeEncodeError.
Proof. reflexivity. Qed.

Ltac pick := repeat first [left; reflexivity | right].

Ltac distinct_keys :=
  unfold is_dict; simpl;
  repeat (constructor; [simpl; intuition discriminate|]); constructor.

(** C1, as the spec states it, fails: [get-protocol-tvl] called with an
    empty mapping sends nothing at all. *)
Lemma missing_protocol_is_not_forwarded :
  ~ exists (r : result (list TextContent)) (req : request),
      @handle_call_tool ascii_db (lit "get-protocol-tvl") (Some [])
        (main (lit "k") (lit "d") down) []
      = (r, [req]).
Proof.
  intros (r & req & E). vm_compute in E. discriminate.
Qed.

Lemma missing_required_key_raises_witness :
  @handle_call_tool ascii_db (lit "get-protocol-tvl")
    (Some [ (lit "bogus", VStr (lit "x")) ]) (main (lit "k") (lit "d") down) []
  = (Raise (KeyError (lit "protocol")), []).
Proof.
  apply (@missing_required_key_raises ascii_db
           {| name := lit "get-protocol-tvl";
              properties := [ lit "protocol" ];
              required := [ lit "protocol" ] |}
           (lit "protocol")).
  - simpl. pick.
  - simpl. pick.
  - reflexivity.
Defined.

(** C3, as the spec states it, fails: a 2xx answer whose body is the empty
    object is not serialised; the caller gets the failure text. *)
Lemma empty_object_payload_is_not_dumped :
  let w := main (lit "k") (lit "d") (serving (VDict [])) in
  let req := request_of ProtocolAnalytics w (lit "https://api.llama.fi/protocols") in
  yields (network w req) (VDict [])
  /\ @handle_call_tool ascii_db (lit "listing-protocols") None w []
     = (Return [ {| type := lit "text";
                    text := lit "Failed to retrieve protocols data" |} ], [req])
  /\ lit "Failed to retrieve protocols data" <> json_dumps (VDict []).
Proof.
  repeat split.
  - eexists. repeat split.
  - discriminate.
Qed.

Lemma truthy_payload_is_dumped_witness :
  let w := main (lit "k") (lit "d") (serving (VInt 42)) in
  fst (@handle_call_tool ascii_db (lit "get-protocol-tvl")
         (Some [ (lit "protocol", VStr (lit "aave")) ]) w [])
  = Return [ {| type := lit "text"; text := json_dumps (VInt 42) |} ].
Proof.
  intros w.
  apply (@truthy_payload_is_dumped ascii_db (lit "get-protocol-tvl")
           (Some [ (lit "protocol", VStr (lit "aave")) ]) w []
           [ request_of ProtocolAnalytics w (lit "https://api.llama.fi/tvl/aave") ]
           _ (request_of ProtocolAnalytics w (lit "https://api.llama.fi/tvl/aave"))
           (VInt 42)).
  - reflexivity.
  - reflexivity.
  - eexists. repeat split.
  - reflexivity.
Defined.

Lemma only_whitelisted_keys_reach_the_url_witness :
  let w := main (lit "k") (lit "d") down in
  @handle_call_tool ascii_db (lit "get-coin-quotes")
    (Some [ (lit "symbol", VStr (lit "BTC")); (lit "bogus", VStr (lit "x")) ]) w []
  = @handle_call_tool ascii_db (lit "get-coin-quotes")
      (Some [ (lit "symbol", VStr (lit "BTC")) ]) w [].
Proof.
  intros w.
  apply (@only_whitelisted_keys_reach_the_url ascii_db GetCoinQuotes
           [ (lit "symbol", VStr (lit "BTC")); (lit "bogus", VStr (lit "x")) ]
           [ (lit "symbol", VStr (lit "BTC")) ] w []).
  - distinct_keys.
  - distinct_keys.
  - reflexivity.
Defined.

Lemma client_functions_swallow_failures_witness :
  exists (req : request) (v : value),
    req_url req = lit "https://api.llama.fi/protocols"
    /\ make_defillama_request down (lit "https://api.llama.fi/protocols")
         (main (lit "k") (lit "d") down) []
       = (Return v, [] ++ [req])
    /\ (no_data (down req) -> v = VNone).
Proof.
  apply (client_functions_swallow_failures make_defillama_request).
  simpl. pick.
Defined.


Lemma query_tools_without_arguments_witness :
  exists r,
    @handle_call_tool ascii_db (lit "get-coin-info") None
      (main (lit "k") (lit "d") down) []
    = (Return r,
       [] ++ [ request_of MarketData (main (lit "k") (lit "d") down)
                 (lit "https://pro-api.coinmarketcap.com/v2/cryptocurrency/info?") ]).
Proof.
  apply (@query_tools_without_arguments ascii_db None
           (main (lit "k") (lit "d") down) []).
  left. reflexivity.
Defined.

(** * Further properties of the server *)

(** ** Which exceptions leave the dispatcher *)



Section Escapes.
Context `{UnicodeDB}.



(** ** What a call that returns has done *)

(** X2.  A call that returns has sent exactly one request and answers
    exactly one item, of type [text]; its text is the branch's failure text
    or [json.dumps] of what the client function handed back. *)
Theorem one_request_one_text_item (nm : str) (arguments : option dict)
    (w : world) (log log' : list request) (items : list TextContent) :
  handle_call_tool nm arguments w log = (Return items, log') ->
  exists (t : tool) (req : request) (txt : str),
    nm = tool_name t
    /\ log' = log ++ [req]
    /\ items = [ {| type := lit "text"; text := txt |} ]
    /\ (txt = lit (failure_text t) \/ txt = json_dumps (data_of (network w req))).
Proof.
  intros Hrun.
  destruct (handle_call_tool_log nm arguments w log)
    as [(e' & Eu & E) | (t & url & Hn & _ & E)];
    rewrite E in Hrun; inversion Hrun; subst; clear Hrun.
  exists t, (request_of (upstream_of t) w url).
  unfold answer.
  destruct (truthy (data_of (network w (request_of (upstream_of t) w url))));
    cbn [negb]; eexists; repeat split; auto.
Qed.

(** X3.  When the request a call sent brought no data -- the GET raised,
    the status was outside 2xx, the body did not decode -- or brought a
    body that counts as false ([null], [false], zero, an empty string,
    array or object), the answer is the branch's failure text, the same
    for every cause. *)
Theorem no_data_or_falsy_answers_failure (t : tool) (arguments : option dict)
    (w : world) (log : list request) (r : result (list TextContent))
    (req : request) :
  handle_call_tool (tool_name t) arguments w log = (r, log ++ [req]) ->
  no_data (network w req)
    \/ (exists v, yields (network w req) v /\ truthy v = false) ->
  r = Return [ {| type := lit "text"; text := lit (failure_text t) |} ].
Proof.
  intros Hrun Hcause.
  destruct (handle_call_tool_log (tool_name t) arguments w log)
    as [(e & _ & E) | (t' & url & Hn' & _ & E)];
    rewrite E in Hrun; inversion Hrun; subst.
  - exfalso. eapply log_did_not_grow; eassumption.
  - match goal with Hl : _ ++ _ = _ ++ _ |- _ => apply log_grew_by in Hl; subst req end.
    apply tool_name_inj in Hn'. subst t'. unfold answer.
    destruct Hcause as [Hn | (v & Hy & Hf)].
    + now rewrite (data_of_no_data _ Hn).
    + now rewrite (data_of_yields _ _ Hy), Hf.
Qed.

(** X5.  Each request carries the headers of its upstream and nothing of
    another's: the market-data key goes to the three CoinMarketCap tools
    only, the staking key to [get-apr] only, and the two DeFi Llama tools
    send no key at all.  Every request has the 10-second timeout. *)
Theorem requests_carry_their_own_credentials (t : tool) (arguments : option dict)
    (w : world) (log : list request) (r : result (list TextContent))
    (req : request) :
  handle_call_tool (tool_name t) arguments w log = (r, log ++ [req]) ->
  req_timeout req = VFloat (lit "10.0")
  /\ req_headers req
     = match t with
       | ListingCoins | GetCoinInfo | GetCoinQuotes =>
           [ (lit "Accepts", VStr (lit "application/json"));
             (lit "X-CMC_PRO_API_KEY", API_KEY w) ]
       | ListingProtocols | GetProtocolTvl =>
           [ (lit "accept", VStr (lit "*/*")) ]
       | GetApr =>
           [ (lit "accept", VStr (lit "*/*")); (lit "X-API-Key", DEFI_API_KEY w) ]
       end.
Proof.
  intros Hrun.
  destruct (handle_call_tool_log (tool_name t) arguments w log)
    as [(e & _ & E) | (t' & url & Hn' & _ & E)];
    rewrite E in Hrun; inversion Hrun; subst.
  - exfalso. eapply log_did_not_grow; eassumption.
  - match goal with Hl : _ ++ _ = _ ++ _ |- _ => apply log_grew_by in Hl; subst req end.
    apply tool_name_inj in Hn'. subst t'. destruct t; split; reflexivity.
Qed.
End Escapes.

(** ** The client functions on success *)

(** X4.  Each client function sends one GET, for exactly the URL it was
    given and with the 10-second timeout; when that GET comes back 2xx with
    a body that decodes, the function returns the decoded body as it is. *)
Theorem client_functions_return_the_body
    (f : AsyncClient -> str -> M value) (client : AsyncClient) (url : str)
    (w : world) (log : list request) :
  In f [make_coinmarketcap_request; make_defillama_request;
        make_expand_network_request] ->
  exists req : request,
    req_url req = url
    /\ req_timeout req = VFloat (lit "10.0")
    /\ snd (f client url w log) = log ++ [req]
    /\ (forall v, yields (client req) v -> f client url w log = (Return v, log ++ [req])).
Proof.
  intros Hf.
  assert (Hu : exists u, f = make_request u).
  { destruct Hf as [<- | [<- | [<- | []]]];
      [exists MarketData | exists ProtocolAnalytics | exists StakingYield];
      reflexivity. }
  destruct Hu as [u ->]. exists (request_of u w url).
  rewrite make_request_run. repeat split.
  intros v Hy. now rewrite (data_of_yields _ _ Hy).
Qed.

(** ** The listing and the dispatcher *)

(** X6.  Every branch of the dispatcher is advertised by the listing under
    its name, and -- [listing-protocols] apart, whose 24 listed properties
    the dispatcher never reads -- the properties listed are exactly the keys
    the branch copies, in the same order; a required key is always one of
    the listed properties. *)
Theorem listing_agrees_with_dispatcher (t : tool) :
  exists T : Tool,
    In T handle_list_tools
    /\ name T = tool_name t
    /\ (t <> ListingProtocols -> properties T = whitelist t)
    /\ (t = ListingProtocols -> whitelist t = [] /\ List.length (properties T) = 24%nat)
    /\ incl (required T) (properties T).
Proof.
  destruct t;
    [ exists (nth 0 handle_list_tools (Build_Tool [] [] []))
    | exists (nth 1 handle_list_tools (Build_Tool [] [] []))
    | exists (nth 2 handle_list_tools (Build_Tool [] [] []))
    | exists (nth 4 handle_list_tools (Build_Tool [] [] []))
    | exists (nth 5 handle_list_tools (Build_Tool [] [] []))
    | exists (nth 6 handle_list_tools (Build_Tool [] [] [])) ];
    cbn [nth handle_list_tools];
    (split; [simpl; pick|]); (split; [reflexivity|]);
    (split; [intros Hne; first [reflexivity | congruence]|]);
    (split; [intros E; try discriminate E; split; reflexivity|]);
    cbn [required properties]; auto using incl_refl, incl_nil_l.
Qed.

(** ** Arguments that are not text *)




Lemma lit_String (a : ascii) (s : string) :
  lit (String a s) = N_of_ascii a :: lit s.
Proof. reflexivity. Qed.

Lemma uint_digits (d : Decimal.uint) :
  Forall (fun c => 48 <= c <= 57) (lit (NilEmpty.string_of_uint d)).
Proof.
  induction d; cbn [NilEmpty.string_of_uint]; [constructor|..];
    rewrite lit_String; (constructor; [vm_compute; split; discriminate | assumption]).
Qed.

(** [str(n)] is a run of digits, after a [-] when [n] is negative. *)
Lemma int_str_chars (n : Z) :
  Forall (fun c => 48 <= c <= 57 \/ c = 45) (int_str n).
Proof.
  assert (Hu : forall d, Forall (fun c => 48 <= c <= 57 \/ c = 45)
                           (lit (NilZero.string_of_uint d))).
  { intros d. unfold NilZero.string_of_uint.
    destruct d.
    1: { change (Forall (fun c => 48 <= c <= 57 \/ c = 45) [48]).
         constructor; [left; lia | constructor]. }
    all: eapply Forall_impl; [|apply uint_digits]; intros c Hc; now left. }
  unfold int_str, NilZero.string_of_int.
  destruct (Z.to_int n) as [d|d]; [apply Hu|].
  rewrite lit_String. constructor; [now right | apply Hu].
Qed.


Section Scalars.
Context `{UnicodeDB}.



(** ** The two tools that build the URL by hand *)

End Scalars.

(** ** Arguments the branch does not know *)

Lemma copy_keys_unknown (condi_keys : list str) (args : dict) (keys : list str)
    (rd : dict) :
  (forall k, In k keys -> ~ In k condi_keys) ->
  copy_keys condi_keys args keys rd = Return rd.
Proof.
  revert rd. induction keys as [|k keys IH]; intros rd Hk; [reflexivity|].
  cbn [copy_keys]. destruct (str_in k condi_keys) eqn:E.
  - apply str_in_In in E. exfalso. apply (Hk k); [now left | assumption].
  - apply IH. intros k' Hk'. apply Hk. now right.
Qed.

Section Unknown.
Context `{UnicodeDB}.

(** X9.  A call whose arguments hold no key of the branch's whitelist is
    the call with no arguments at all: same exception or same request, same
    answer. *)
Theorem unknown_keys_alone_are_no_arguments (t : tool) (args : dict)
    (w : world) (log : list request) :
  (forall k, In k (dict_keys args) -> ~ In k (whitelist t)) ->
  handle_call_tool (tool_name t) (Some args) w log
  = handle_call_tool (tool_name t) None w log.
Proof.
  intros Hk.
  assert (Hu : url_of (tool_name t) (Some args) = url_of (tool_name t) None).
  { unfold url_of. rewrite tool_of_name_tool_name. cbn [collect_request_data].
    now rewrite copy_keys_unknown. }
  rewrite !handle_call_tool_stages, Hu. reflexivity.
Qed.

(** ** The characters of a query *)

Lemma join_Forall (P : N -> Prop) (sep : str) (parts : list str) :
  Forall P sep -> Forall (Forall P) parts -> Forall P (join sep parts).
Proof.
  intros Hsep. induction 1 as [|p rest Hp Hrest IH]; [constructor|].
  destruct rest as [|p' rest]; [exact Hp|].
  change (join sep (p :: p' :: rest)) with (p ++ sep ++ join sep (p' :: rest)).
  apply Forall_app. split; [assumption|]. apply Forall_app. split; assumption.
Qed.

Lemma query_safe_query_char (q : str) :
  Forall (fun c => query_safe c = true) q -> Forall (fun c => query_char c = true) q.
Proof.
  apply Forall_impl. intros c Hc. unfold query_char. now rewrite Hc.
Qed.

Lemma urlencode_chars (d : dict) (query : str) :
  urlencode d = Return query -> Forall (fun c => query_char c = true) query.
Proof.
  unfold urlencode.
  destruct (urlencode_items d) as [l|] eqn:El; cbn [rbind]; [|discriminate].
  intros [= <-]. apply join_Forall; [repeat constructor|].
  revert l El. induction d as [|[k v] d IH]; intros l El.
  - inversion El. constructor.
  - cbn [urlencode_items] in El.
    destruct (quote_plus (py_str (VStr k)) []) as [kq|] eqn:Ek; [|discriminate].
    destruct (quote_plus (py_str v) []) as [vq|] eqn:Ev; [|discriminate].
    destruct (urlencode_items d) as [l'|]; [|discriminate].
    cbn [rbind] in El. inversion El; subst l. constructor; [|now apply IH].
    apply Forall_app. split; [now apply query_safe_query_char, (quote_plus_safe _ _ Ek)|].
    constructor; [reflexivity|].
    now apply query_safe_query_char, (quote_plus_safe _ _ Ev).
Qed.

(** X10.  Whatever the arguments of a query tool hold -- text in any
    script, numbers, lists -- the query of the URL it asks for is written
    with unreserved characters, [%], [+], [=] and [&] alone: nothing of an
    argument reaches the URL unquoted. *)
Theorem query_is_always_quoted (t : tool) (arguments : option dict)
    (w : world) (log : list request) (r : result (list TextContent))
    (req : request) :
  query_tool t = true ->
  handle_call_tool (tool_name t) arguments w log = (r, log ++ [req]) ->
  exists query : str,
    req_url req = base_url t ++ query
    /\ Forall (fun c => query_char c = true) query
    /\ ~ In 32 query /\ ~ In 35 query /\ ~ In 47 query /\ ~ In 63 query
    /\ Forall (fun c => c < 128) query.
Proof.
  intros Hq Hrun. apply sent_url in Hrun.
  unfold url_of in Hrun. rewrite tool_of_name_tool_name in Hrun.
  destruct (collect_request_data (whitelist t) arguments) as [rd|]; [|discriminate].
  cbn [rbind] in Hrun.
  replace (url_tail t rd) with (urlencode rd) in Hrun
    by (destruct t; try discriminate; reflexivity).
  destruct (urlencode rd) as [query|] eqn:Eq; [|discriminate].
  cbn [rbind] in Hrun. inversion Hrun as [Hurl].
  pose proof (urlencode_chars _ _ Eq) as Hc.
  exists query. split; [reflexivity|]. split; [exact Hc|].
  rewrite Forall_forall in Hc.
  repeat split; try (intros Hin; apply Hc in Hin; discriminate).
  apply Forall_forall. intros c Hin. apply Hc in Hin.
  unfold query_char, query_safe in Hin.
  apply orb_true_iff in Hin as [Hin | Hin];
    [apply orb_true_iff in Hin as [Hin | Hin];
       [apply orb_true_iff in Hin as [Hin | Hin];
          [apply orb_true_iff in Hin as [Hin | Hin]|]|]|];
    try (apply N.eqb_eq in Hin; subst; reflexivity).
  pose proof (plain_safe (ALWAYS_SAFE ++ []) c (proj1 safe_sets_plain)) as Hp.
  rewrite app_nil_r in Hp. apply Hp, plain_spec in Hin. tauto.
Qed.
End Unknown.

(** ** What [get-apr] lets a value do *)






Section Injection.
Context `{UnicodeDB}.

End Injection.

(** ** The text of an answer *)

(** Induction on a value and on the values inside it. *)
Lemma value_nested_ind (P : value -> Prop) :
  P VNone ->
  (forall b, P (VBool b)) ->
  (forall n, P (VInt n)) ->
  (forall r, P (VFloat r)) ->
  (forall s, P (VStr s)) ->
  (forall xs, Forall P xs -> P (VList xs)) ->
  (forall kvs, Forall (fun kv => P (snd kv)) kvs -> P (VDict kvs)) ->
  forall v, P v.
Proof.
  intros HN HB HI HF HS HL HD.
  fix IH 1. intros [| b | n | r | s | xs | kvs].
  - exact HN.
  - apply HB.
  - apply HI.
  - apply HF.
  - apply HS.
  - apply HL. induction xs as [|x xs IHxs]; constructor; [apply IH | exact IHxs].
  - apply HD. induction kvs as [|[k x] kvs IHkvs]; constructor;
      [apply IH | exact IHkvs].
Qed.

Lemma printable_spec (c : N) : printable_ascii c = true <-> 32 <= c <= 126.
Proof.
  unfold printable_ascii. now rewrite andb_true_iff, !N.leb_le.
Qed.

Lemma hex_digit_printable (upper : bool) (d : N) :
  d < 16 -> printable_ascii (hex_digit upper d) = true.
Proof.
  intros Hd. apply printable_spec. unfold hex_digit.
  destruct (N.ltb_spec d 10); destruct upper; lia.
Qed.

Lemma hex_fixed_printable (upper : bool) (width : nat) (n : N) :
  Forall (fun c => printable_ascii c = true) (hex_fixed upper width n).
Proof.
  revert n. induction width as [|width IH]; intros n; [constructor|].
  cbn [hex_fixed]. apply Forall_app. split; [apply IH|].
  constructor; [|constructor]. apply hex_digit_printable, N.mod_lt. lia.
Qed.

Lemma json_escape_char_printable (c : N) :
  Forall (fun x => printable_ascii x = true) (json_escape_char c).
Proof.
  unfold json_escape_char.
  repeat match goal with
  | |- context [if ?b then _ else _] => destruct b eqn:?
  end;
  try (repeat constructor; fail);
  repeat (apply Forall_app; split);
  try apply hex_fixed_printable; try (repeat constructor; fail).
  all: constructor; [|constructor].
  all: first [ match goal with E : _ && _ = true |- _ => exact E end
             | apply hex_digit_printable, N.mod_lt; lia ].
Qed.

Lemma concat_Forall (P : N -> Prop) (parts : list str) :
  Forall (Forall P) parts -> Forall P (List.concat parts).
Proof.
  induction 1 as [|p rest Hp Hrest IH]; [constructor|].
  cbn [List.concat]. apply Forall_app. split; assumption.
Qed.

Lemma json_string_printable (s : str) :
  Forall (fun c => printable_ascii c = true) (json_string s).
Proof.
  unfold json_string. constructor; [reflexivity|].
  apply Forall_app. split; [|repeat constructor].
  apply concat_Forall. apply Forall_forall. intros p Hp.
  apply in_map_iff in Hp as (c & <- & _). apply json_escape_char_printable.
Qed.

Lemma int_str_printable (n : Z) :
  Forall (fun c => printable_ascii c = true) (int_str n).
Proof.
  eapply Forall_impl; [|apply int_str_chars].
  intros c Hc. apply printable_spec. destruct Hc as [[? ?] | ->]; lia.
Qed.

Lemma float_chars_spec (r : str) :
  float_chars r = true ->
  r <> [] /\ Forall (fun c => In c (lit "0123456789+-.einfa")) r.
Proof.
  unfold float_chars. destruct r as [|c r]; [discriminate|].
  intros Hr. split; [discriminate|].
  rewrite forallb_forall in Hr. apply Forall_forall. intros x Hx.
  now apply str_contains_In, Hr.
Qed.

Lemma json_float_printable (r : str) :
  float_chars r = true -> Forall (fun c => printable_ascii c = true) (json_float r).
Proof.
  intros Hr. unfold json_float.
  repeat match goal with
  | |- context [if ?b then _ else _] => destruct b
  end; try (repeat constructor; fail).
  apply float_chars_spec in Hr as [_ Hr].
  eapply Forall_impl; [|exact Hr]. intros c Hc. simpl in Hc.
  repeat (destruct Hc as [<- | Hc]; [reflexivity|]). contradiction.
Qed.

(** [json.dumps] writes printable ASCII, whatever text the value holds. *)
Lemma json_dumps_printable (v : value) :
  floats_ok v = true -> Forall (fun c => printable_ascii c = true) (json_dumps v).
Proof.
  induction v as [| b | n | r | s | xs IH | kvs IH] using value_nested_ind;
    intros Hok.
  - repeat constructor.
  - destruct b; repeat constructor.
  - apply int_str_printable.
  - now apply json_float_printable.
  - apply json_string_printable.
  - cbn [json_dumps floats_ok] in *. rewrite forallb_forall in Hok.
    constructor; [reflexivity|]. apply Forall_app. split; [|repeat constructor].
    apply join_Forall; [repeat constructor|].
    apply Forall_forall. intros p Hp. apply in_map_iff in Hp as (x & <- & Hx).
    rewrite Forall_forall in IH. auto.
  - cbn [json_dumps floats_ok] in *. rewrite forallb_forall in Hok.
    constructor; [reflexivity|]. apply Forall_app. split; [|repeat constructor].
    apply join_Forall; [repeat constructor|].
    apply Forall_forall. intros p Hp. apply in_map_iff in Hp as ([k x] & <- & Hx).
    cbn [fst snd]. apply Forall_app. split; [apply json_string_printable|].
    apply Forall_app. split; [repeat constructor|].
    rewrite Forall_forall in IH. apply (IH (k, x) Hx). apply (Hok (k, x) Hx).
Qed.

Lemma data_of_cases (o : result response) :
  data_of o = VNone \/ yields o (data_of o).
Proof.
  destruct o as [r|e]; [|now left]. cbn [data_of].
  destruct (is_success r) eqn:Hs; [|now left].
  destruct (body_json r) as [v|e] eqn:Hb; [|now left].
  right. exists r. auto.
Qed.

(** What a truthy value is dumped as starts with no capital [F]. *)
Lemma json_dumps_head (v : value) (c : N) (rest : str) :
  truthy v = true -> floats_ok v = true ->
  json_dumps v = c :: rest -> c <> 70.
Proof.
  intros Ht Hok E. destruct v as [| b | n | r | s | xs | kvs]; cbn [json_dumps] in E.
  - discriminate.
  - destruct b; [|discriminate]. inversion E. discriminate.
  - pose proof (int_str_chars n) as Hn. rewrite E in Hn.
    inversion Hn as [|? ? Hc _]; subst. lia.
  - cbn [floats_ok] in Hok. unfold json_float in E.
    repeat match type of E with
    | (if ?b then _ else _) = _ => destruct b
    end; try (inversion E; discriminate).
    apply float_chars_spec in Hok as [_ Hr]. rewrite E in Hr.
    inversion Hr as [|? ? Hc _]; subst. simpl in Hc.
    repeat (destruct Hc as [<- | Hc]; [discriminate|]). contradiction.
  - inversion E. discriminate.
  - inversion E. discriminate.
  - inversion E. discriminate.
Qed.

Section AnswerText.
Context `{UnicodeDB}.

(** X12.  The text of an answer is printable ASCII whatever the upstream
    sent -- accents, emoji and control characters in the body come out as
    [\u] escapes -- as long as the floats of the body are kept as float
    text. *)
Theorem answer_text_is_printable_ascii (nm : str) (arguments : option dict)
    (w : world) (log : list request) (items : list TextContent) (req : request) :
  handle_call_tool nm arguments w log = (Return items, log ++ [req]) ->
  (forall v, yields (network w req) v -> floats_ok v = true) ->
  Forall (fun item => Forall (fun c => printable_ascii c = true) (text item)) items.
Proof.
  intros Hrun Hok.
  destruct (handle_call_tool_log nm arguments w log)
    as [(e & _ & E) | (t & url & _ & _ & E)];
    rewrite E in Hrun; inversion Hrun as [[Hitems Hlog]]; subst items.
  apply log_grew_by in Hlog. subst req. unfold answer.
  destruct (truthy _) eqn:Ht; cbn [negb]; (constructor; [|constructor]); cbn [text].
  - apply json_dumps_printable.
    destruct (data_of_cases (network w (request_of (upstream_of t) w url))) as [E0 | Hy].
    + rewrite E0 in Ht. discriminate.
    + now apply Hok.
  - destruct t; repeat constructor.
Qed.

(** X13.  A body that is served is never mistaken for a failure: when the
    request came back 2xx with a body that counts as true, the answer is
    none of the six failure texts. *)
Theorem served_body_is_not_a_failure_text (nm : str) (arguments : option dict)
    (w : world) (log : list request) (r : result (list TextContent))
    (req : request) (v : value) :
  handle_call_tool nm arguments w log = (r, log ++ [req]) ->
  yields (network w req) v -> truthy v = true -> floats_ok v = true ->
  forall t : tool,
    r <> Return [ {| type := lit "text"; text := lit (failure_text t) |} ].
Proof.
  intros Hrun Hy Ht Hok t'.
  destruct (handle_call_tool_log nm arguments w log)
    as [(e & _ & E) | (t & url & _ & _ & E)];
    rewrite E in Hrun; inversion Hrun as [[Hres Hlog]]; subst r; intros Hr.
  - discriminate.
  - apply log_grew_by in Hlog. subst req.
    rewrite (data_of_yields _ _ Hy) in Hr. unfold answer in Hr.
    rewrite Ht in Hr. cbn [negb] in Hr. inversion Hr as [Htxt].
    destruct (json_dumps v) as [|c rest] eqn:Ej.
    + destruct t'; discriminate.
    + apply (json_dumps_head v c rest Ht Hok Ej).
      destruct t'; inversion Htxt; reflexivity.
Qed.
End AnswerText.

(** ** Concrete runs of the further properties *)


Lemma one_request_one_text_item_witness :
  let w := main (lit "k") (lit "d") (serving (VInt 1)) in
  exists (t : tool) (req : request) (txt : str),
    lit "listing-protocols" = tool_name t
    /\ [ request_of ProtocolAnalytics w (lit "https://api.llama.fi/protocols") ]
       = [] ++ [req]
    /\ [ {| type := lit "text"; text := lit "1" |} ]
       = [ {| type := lit "text"; text := txt |} ]
    /\ (txt = lit (failure_text t) \/ txt = json_dumps (data_of (network w req))).
Proof.
  intros w.
  apply (@one_request_one_text_item ascii_db (lit "listing-protocols") None w []).
  reflexivity.
Defined.

Lemma no_data_or_falsy_answers_failure_witness :
  let w := main (lit "k") (lit "d") (serving (VList [])) in
  fst (@handle_call_tool ascii_db (lit "get-coin-info") None w [])
  = Return [ {| type := lit "text"; text := lit "Failed to retrieve coin info data" |} ].
Proof.
  intros w.
  apply (@no_data_or_falsy_answers_failure ascii_db GetCoinInfo None w []
           _ (request_of MarketData w
                (lit "https://pro-api.coinmarketcap.com/v2/cryptocurrency/info?"))).
  - reflexivity.
  - right. exists (VList []). split; [|reflexivity].
    eexists. repeat split.
Defined.

Lemma client_functions_return_the_body_witness :
  let w := main (lit "k") (lit "d") (serving (VInt 7)) in
  exists req : request,
    req_url req = lit "https://api.llama.fi/tvl/aave"
    /\ req_timeout req = VFloat (lit "10.0")
    /\ snd (make_defillama_request (serving (VInt 7))
              (lit "https://api.llama.fi/tvl/aave") w [])
       = [] ++ [req]
    /\ (forall v, yields (serving (VInt 7) req) v ->
        make_defillama_request (serving (VInt 7))
          (lit "https://api.llama.fi/tvl/aave") w []
        = (Return v, [] ++ [req])).
Proof.
  intros w. apply (client_functions_return_the_body make_defillama_request).
  simpl. pick.
Defined.

Lemma requests_carry_their_own_credentials_witness :
  let w := main (lit "cmc-key") (lit "staking-key") down in
  let req := request_of StakingYield w
               (lit "https://api.expand.network/liquidstaking/getapr?liquidStakingId=1") in
  req_timeout req = VFloat (lit "10.0")
  /\ req_headers req
     = [ (lit "accept", VStr (lit "*/*"));
         (lit "X-API-Key", VStr (lit "staking-key")) ].
Proof.
  intros w req.
  apply (@requests_carry_their_own_credentials ascii_db GetApr
           (Some [ (lit "liquidStakingId", VStr (lit "1")) ]) w []
           (fst (@handle_call_tool ascii_db (lit "get-apr")
                   (Some [ (lit "liquidStakingId", VStr (lit "1")) ]) w []))
           req).
  reflexivity.
Defined.



Lemma unknown_keys_alone_are_no_arguments_witness :
  let w := main (lit "k") (lit "d") down in
  @handle_call_tool ascii_db (lit "get-coin-info")
    (Some [ (lit "bogus", VInt 1) ]) w []
  = @handle_call_tool ascii_db (lit "get-coin-info") None w [].
Proof.
  intros w.
  apply (@unknown_keys_alone_are_no_arguments ascii_db GetCoinInfo
           [ (lit "bogus", VInt 1) ] w []).
  intros k [<- | []] Hin. simpl in Hin. intuition discriminate.
Defined.

Lemma query_is_always_quoted_witness :
  let w := main (lit "k") (lit "d") down in
  let req := request_of MarketData w
               (lit "https://pro-api.coinmarketcap.com/v2/cryptocurrency/quotes/latest?symbol=a+b%2F%23%3F") in
  exists query : str,
    req_url req = base_url GetCoinQuotes ++ query
    /\ Forall (fun c => query_char c = true) query
    /\ ~ In 32 query /\ ~ In 35 query /\ ~ In 47 query /\ ~ In 63 query
    /\ Forall (fun c => c < 128) query.
Proof.
  intros w req.
  apply (@query_is_always_quoted ascii_db GetCoinQuotes
           (Some [ (lit "symbol", VStr (lit "a b/#?")) ]) w []
           (fst (@handle_call_tool ascii_db (lit "get-coin-quotes")
                   (Some [ (lit "symbol", VStr (lit "a b/#?")) ]) w []))
           req).
  - reflexivity.
  - reflexivity.
Defined.


Lemma answer_text_is_printable_ascii_witness :
  let w := main (lit "k") (lit "d") (serving (VStr [233; 128512])) in
  Forall (fun item => Forall (fun c => printable_ascii c = true) (text item))
    [ {| type := lit "text"; text := json_dumps (VStr [233; 128512]) |} ].
Proof.
  intros w.
  apply (@answer_text_is_printable_ascii ascii_db (lit "listing-protocols") None w []
           _ (request_of ProtocolAnalytics w (lit "https://api.llama.fi/protocols"))).
  - reflexivity.
  - intros v (r & E & _ & Hb). inversion E; subst r. simpl in Hb.
    inversion Hb. reflexivity.
Defined.

Lemma served_body_is_not_a_failure_text_witness :
  let w := main (lit "k") (lit "d") (serving (VInt 42)) in
  exists r,
    fst (@handle_call_tool ascii_db (lit "get-protocol-tvl")
           (Some [ (lit "protocol", VStr (lit "aave")) ]) w []) = r
    /\ r <> Return [ {| type := lit "text";
                        text := lit (failure_text GetProtocolTvl) |} ].
Proof.
  intros w. eexists. split; [reflexivity|].
  apply (@served_body_is_not_a_failure_text ascii_db (lit "get-protocol-tvl")
           (Some [ (lit "protocol", VStr (lit "aave")) ]) w []
           _ (request_of ProtocolAnalytics w (lit "https://api.llama.fi/tvl/aave"))
           (VInt 42)).
  - reflexivity.
  - eexists. repeat split.
  - reflexivity.
  - reflexivity.
Defined.
